(** * core-js-101, 06-objects-tasks.js: the CSS selector builder and the
    JSON helpers, embedded with an explicit JavaScript heap.

    The builder of the source is one object literal whose methods copy and
    mutate objects through [this]; the embedding keeps the object store and
    the references, so that aliasing between a builder, its copies and the
    values handed to [combine] is visible in the statements. *)

From Stdlib Require Import String Ascii ZArith List Sorted DecimalString
  DecimalFacts DecimalPos.
From stdpp Require Import gmap strings list fin_maps.

(** ** Computations that change a store and may throw *)

Module Runtime.

(** [throw new Error(message)] of the source, the TypeError and SyntaxError
    the engine raises, and [Unmodelled] for a step that leaves the fragment
    of JavaScript the embedding covers (fractional numbers, array indices as
    properties, wrapper objects of primitives). *)
Inductive exn := Error (message : string) | TypeError | SyntaxError | Unmodelled.

Inductive outcome (A : Type) := Return (a : A) | Throw (e : exn).
Arguments Return {A} a.
Arguments Throw {A} e.

(** A computation transforms the store and returns or throws; the store it
    leaves behind is kept in both cases, as in JavaScript. *)
Definition M (St A : Type) : Type := St -> St * outcome A.

Definition ret {St A} (a : A) : M St A := fun h => (h, Return a).

Definition throw {St A} (e : exn) : M St A := fun h => (h, Throw e).

Definition bind {St A B} (m : M St A) (k : A -> M St B) : M St B :=
  fun h => match m h with
           | (h', Return a) => k a h'
           | (h', Throw e) => (h', Throw e)
           end.

End Runtime.

Import Runtime.

Notation "'let*' x ':=' m 'in' k" := (bind m (fun x => k))
  (at level 10, x name, m at level 100, k at level 200).
Notation "m ';;' k" := (bind m (fun _ => k))
  (at level 100, k at level 200, right associativity).

(** ** The CSS selector builder *)

Module Builder.

(** References to objects and to arrays live in two address spaces. *)
Definition loc := positive.

(** A builder object: its [string] property and the reference held by its
    [selectorUsed] property. The methods are the same function values on
    every object (the spread in [copyObject] copies them) and are never
    assigned to, so they are not stored. *)
Record obj := Obj { o_string : string; o_selectorUsed : loc }.

Record heap := Heap { objs : gmap loc obj; arrs : gmap loc (list bool) }.

Abbreviation JS := (M heap).

Definition getObj (l : loc) : JS obj :=
  fun h => match objs h !! l with
           | Some o => (h, Return o)
           | None => (h, Throw TypeError)
           end.

Definition setObj (l : loc) (o : obj) : JS unit :=
  fun h => (Heap (<[l := o]> (objs h)) (arrs h), Return tt).

Definition newObj (o : obj) : JS loc :=
  fun h => let l := fresh (dom (objs h)) in
           (Heap (<[l := o]> (objs h)) (arrs h), Return l).

Definition getArr (a : loc) : JS (list bool) :=
  fun h => match arrs h !! a with
           | Some u => (h, Return u)
           | None => (h, Throw TypeError)
           end.

Definition setArr (a : loc) (u : list bool) : JS unit :=
  fun h => (Heap (objs h) (<[a := u]> (arrs h)), Return tt).

Definition newArr (u : list bool) : JS loc :=
  fun h => let a := fresh (dom (arrs h)) in
           (Heap (objs h) (<[a := u]> (arrs h)), Return a).

(** [arr[i]] in a condition: an index out of range reads [undefined], which
    is falsy. *)
Definition array_get (i : nat) (u : list bool) : bool := default false (u !! i).

(** [arr[i] = v]: in range the cell is overwritten; out of range JavaScript
    extends the array, the holes reading as [undefined] (falsy). *)
Definition array_set (i : nat) (v : bool) (u : list bool) : list bool :=
  if decide (i < length u) then <[i := v]> u
  else u ++ replicate (i - length u) false ++ [v].

(** A string in a condition: only the empty string is falsy. *)
Definition truthy (s : string) : bool := negb (String.eqb s "").

(** ** cssSelectorBuilder *)

Definition order_message : string :=
  "Selector parts should be arranged in the following order: element, id, class, attribute, pseudo-class, pseudo-element".

Definition occur_message : string :=
  "Element, id and pseudo-element should not occur more then one time inside the selector".

Definition OrderViolation : exn := Error order_message.
Definition DuplicateCategory : exn := Error occur_message.

(** The object literal itself: [string: ''] and
    [selectorUsed: [false, false, false, false, false, false]]. *)
Definition cssSelectorBuilder : loc := 1%positive.

Definition initial_heap : heap :=
  Heap {[ cssSelectorBuilder := Obj "" 1%positive ]}
       {[ 1%positive := [false; false; false; false; false; false] ]}.

(** [this.selectorUsed] *)
Definition selectorUsed (this : loc) : JS (list bool) :=
  let* o := getObj this in getArr (o_selectorUsed o).

(** [this.selectorUsed[i] = v] *)
Definition selectorUsed_store (this : loc) (i : nat) (v : bool) : JS unit :=
  let* o := getObj this in
  let* u := getArr (o_selectorUsed o) in
  setArr (o_selectorUsed o) (array_set i v u).

(** [const object = { ...obj }; object.selectorUsed = obj.selectorUsed.slice();]
    The spread makes a new object whose [selectorUsed] is still the array of
    [obj]; the assignment then points it at a fresh copy of that array. *)
Definition copyObject (obj : loc) : JS loc :=
  let* o := getObj obj in
  let* object := newObj o in
  let* u := selectorUsed obj in
  let* sliced := newArr u in
  let* o' := getObj object in
  setObj object (Obj (o_string o') sliced);;
  ret object.

(** [this.string = this.string ? this.string : ''; this.string += value;] *)
Definition getString (this : loc) (value : string) : JS unit :=
  let* o := getObj this in
  setObj this (Obj (if truthy (o_string o) then o_string o else "")
                   (o_selectorUsed o));;
  let* o := getObj this in
  setObj this (Obj (o_string o +:+ value) (o_selectorUsed o)).

Definition shouldNotOccurMoreThenOneTime : JS unit := throw DuplicateCategory.

(** The body of the [for] loop of [checkOrder], over the slots from index
    [order + 1] up to [selectorUsed.length - 1]. *)
Fixpoint checkOrder_scan (later : list bool) : JS unit :=
  match later with
  | [] => ret tt
  | used :: later' =>
      if used then throw OrderViolation else checkOrder_scan later'
  end.

Definition checkOrder (this : loc) (order : nat) : JS unit :=
  let* u := selectorUsed this in
  checkOrder_scan (drop (order + 1) u).

Definition element (this : loc) (value : string) : JS loc :=
  checkOrder this 0;;
  let* element := copyObject this in
  let* u := selectorUsed element in
  (if array_get 0 u then shouldNotOccurMoreThenOneTime else ret tt);;
  selectorUsed_store element 0 true;;
  getString element value;;
  ret element.

Definition id (this : loc) (value : string) : JS loc :=
  checkOrder this 1;;
  let* element := copyObject this in
  let* u := selectorUsed element in
  (if array_get 1 u then shouldNotOccurMoreThenOneTime else ret tt);;
  selectorUsed_store element 1 true;;
  getString element ("#" +:+ value);;
  ret element.

Definition class (this : loc) (value : string) : JS loc :=
  checkOrder this 2;;
  let* element := copyObject this in
  selectorUsed_store element 2 true;;
  getString element ("." +:+ value);;
  ret element.

Definition attr (this : loc) (value : string) : JS loc :=
  checkOrder this 3;;
  let* element := copyObject this in
  selectorUsed_store element 3 true;;
  getString element ("[" +:+ value +:+ "]");;
  ret element.

Definition pseudoClass (this : loc) (value : string) : JS loc :=
  checkOrder this 4;;
  let* element := copyObject this in
  selectorUsed_store element 4 true;;
  getString element (":" +:+ value);;
  ret element.

Definition pseudoElement (this : loc) (value : string) : JS loc :=
  checkOrder this 5;;
  let* element := copyObject this in
  let* u := selectorUsed element in
  (if array_get 5 u then shouldNotOccurMoreThenOneTime else ret tt);;
  selectorUsed_store element 5 true;;
  getString element ("::" +:+ value);;
  ret element.

(** [const value = this.string; this.string = ''; return value;] *)
Definition stringify (this : loc) : JS string :=
  let* o := getObj this in
  let value := o_string o in
  setObj this (Obj "" (o_selectorUsed o));;
  ret value.

(** [combine] is a method: [this] is the object it is called on, which is
    [cssSelectorBuilder] itself in [builder.combine(...)]. *)
Definition combine (this selector1 : loc) (combinator : string)
    (selector2 : loc) : JS loc :=
  let* str1 := stringify selector1 in
  let* str2 := stringify selector2 in
  let* o := getObj this in
  setObj this (Obj (str1 +:+ " " +:+ combinator +:+ " " +:+ str2)
                   (o_selectorUsed o));;
  ret this.

(** A script run from the state in which the module is loaded. *)
Definition run {A} (m : JS A) : outcome A := snd (m initial_heap).

(** *** The six categories, to quantify over the append methods *)

Inductive category :=
  | Type_ | Id | Class | Attribute | PseudoClass | PseudoElement.

Global Instance category_eq_dec : EqDecision category.
Proof. solve_decision. Defined.

(** The slot index each method passes to [checkOrder] and writes in
    [selectorUsed]. *)
Definition index (c : category) : nat :=
  match c with
  | Type_ => 0 | Id => 1 | Class => 2
  | Attribute => 3 | PseudoClass => 4 | PseudoElement => 5
  end.

(** The text each method hands to [getString]. *)
Definition decorate (c : category) (value : string) : string :=
  match c with
  | Type_ => value
  | Id => "#" +:+ value
  | Class => "." +:+ value
  | Attribute => "[" +:+ value +:+ "]"
  | PseudoClass => ":" +:+ value
  | PseudoElement => "::" +:+ value
  end.

(** The methods that test their own slot before writing it. *)
Definition once (c : category) : bool :=
  match c with
  | Type_ | Id | PseudoElement => true
  | Class | Attribute | PseudoClass => false
  end.

Definition append (c : category) (this : loc) (value : string) : JS loc :=
  match c with
  | Type_ => element this value
  | Id => id this value
  | Class => class this value
  | Attribute => attr this value
  | PseudoClass => pseudoClass this value
  | PseudoElement => pseudoElement this value
  end.

(** A chain of calls [this.m1(v1).m2(v2)...]. *)
Fixpoint build (this : loc) (ops : list (category * string)) : JS loc :=
  match ops with
  | [] => ret this
  | (c, value) :: ops' => let* next := append c this value in build next ops'
  end.

(** The texts handed to [getString] along a chain, in call order. *)
Definition texts (ops : list (category * string)) : string :=
  foldr String.append "" (map (fun op => decorate op.1 op.2) ops).

(** Rendering as the specification words it: the text accumulated for each
    slot, the slots taken in index order 0 to 5; a slot that was never
    appended to contributes the empty text. *)
Definition slot_text (c : category) (ops : list (category * string)) : string :=
  texts (filter (fun op => op.1 = c) ops).

Definition render_by_slots (ops : list (category * string)) : string :=
  foldr String.append ""
    (map (fun c => slot_text c ops)
         [Type_; Id; Class; Attribute; PseudoClass; PseudoElement]).

(** The calls come in non-decreasing slot order. *)
Definition slot_le (x y : category * string) : Prop := index x.1 <= index y.1.

Definition in_order (ops : list (category * string)) : Prop :=
  Sorted slot_le ops.

(** Element, id and pseudo-element occur at most once in the chain. *)
Definition at_most_once (ops : list (category * string)) : Prop :=
  forall c, once c = true -> length (filter (fun op => op.1 = c) ops) <= 1.

(** ** Reading a builder value off the heap *)

(** [selector h l s u]: in [h], [l] is a builder object whose [string] is
    [s] and whose [selectorUsed] array holds the six flags [u]. *)
Definition selector (h : heap) (l : loc) (s : string) (u : list bool) : Prop :=
  exists a, objs h !! l = Some (Obj s a) /\ arrs h !! a = Some u /\ length u = 6.

(** Some slot after [order] is in use. *)
Definition later_used (order : nat) (u : list bool) : bool :=
  existsb (fun used => used) (drop (order + 1) u).

(** The heap after [copyObject] of an object with text [s] and flags [u]. *)
Definition copied (h : heap) (s : string) (u : list bool) : heap :=
  Heap (<[fresh (dom (objs h)) := Obj s (fresh (dom (arrs h)))]> (objs h))
       (<[fresh (dom (arrs h)) := u]> (arrs h)).

(** What an observer of a returned reference can see: its text and flags. *)
Definition observe (res : heap * outcome loc) : outcome (string * list bool) :=
  match res with
  | (h, Return r) =>
      match objs h !! r with
      | Some o =>
          match arrs h !! o_selectorUsed o with
          | Some u => Return (o_string o, u)
          | None => Throw TypeError
          end
      | None => Throw TypeError
      end
  | (_, Throw e) => Throw e
  end.

(** The three ways an append method can end, read off the receiver's text
    [s] and flags [u]. *)
Definition append_result (c : category) (value : string) (h : heap)
    (s : string) (u : list bool) : heap * outcome loc :=
  if later_used (index c) u then (h, Throw OrderViolation)
  else if once c && array_get (index c) u
  then (copied h s u, Throw DuplicateCategory)
  else (copied h (s +:+ decorate c value) (array_set (index c) true u),
        Return (fresh (dom (objs h)))).

(** The double quote, for the attribute value of the documented example. *)
Definition dquote : string := String (ascii_of_nat 34) "".

(** C2 as the specification states it: a second [stringify] on the same
    value returns what the first returned. *)
Definition stringify_repeatable : Prop :=
  forall (h h1 : heap) (this : loc) (s1 : string),
    stringify this h = (h1, Return s1) ->
    snd (stringify this h1) = Return s1.

(** The value built by [id('main')], in the heap that call leaves. *)
Definition heap_main : heap := fst (id cssSelectorBuilder "main" initial_heap).
Definition value_main : loc := 2%positive.

(** The value built by [element('div').id('main')]. *)
Definition heap_div_main : heap :=
  fst (build cssSelectorBuilder [(Type_, "div"); (Id, "main")] initial_heap).
Definition value_div_main : loc := 3%positive.

(** C4 as the specification states it: once element or pseudo-element has
    been appended in the life of a value, appending it again throws the
    duplication error. *)
Definition second_append_is_duplicate (c : category) : Prop :=
  forall (ops1 ops2 : list (category * string)) (v1 v2 : string)
         (h : heap) (r : loc),
    build cssSelectorBuilder (ops1 ++ (c, v1) :: ops2) initial_heap
      = (h, Return r) ->
    snd (append c r v2 h) = Throw DuplicateCategory.

(** C7 as the specification states it: whatever the two values and the
    token, the result of [combine] renders as the rendering of the first,
    a space, the token, a space, the rendering of the second. *)
Definition combine_joins_renderings : Prop :=
  forall (h : heap) (this A B : loc) (t sA sB : string),
    is_Some (objs h !! this) ->
    snd (stringify A h) = Return sA ->
    snd (stringify B h) = Return sB ->
    snd ((let* joined := combine this A t B in stringify joined) h)
    = Return (sA +:+ " " +:+ t +:+ " " +:+ sB).

(** The value built by [element('a')]. *)
Definition heap_a : heap := fst (element cssSelectorBuilder "a" initial_heap).
Definition value_a : loc := 2%positive.

(** The values built by [element('a')] and then [element('b')]. *)
Definition heap_a_b : heap := fst (element cssSelectorBuilder "b" heap_a).
Definition value_b : loc := 3%positive.


(** C1 as the specification states it, with no condition on the value the
    chain starts from: a chain in slot order that returns renders the slots'
    texts in index order. *)
Definition chain_renders_slots : Prop :=
  forall (h0 h : heap) (this r : loc) (s : string) (u : list bool)
         (ops : list (category * string)),
    selector h0 this s u ->
    in_order ops ->
    build this ops h0 = (h, Return r) ->
    snd (stringify r h) = Return (render_by_slots ops).

(** The heap after [builder.combine(a, '+', b)] on the values built by
    [element('a')] and [element('b')], its result not yet rendered. *)
Definition heap_combined : heap :=
  fst (combine cssSelectorBuilder value_a "+" value_b heap_a_b).

End Builder.

(** ** Rectangle, getJSON and fromJSON *)

Module Objects.

Definition loc := positive.

(** The one function value the source creates at run time: the arrow
    function [() => this.width * this.height], closed over the [this] of the
    [Rectangle] call that made it. *)
Inductive closure := getArea_of (this : loc).

(** Values. Numbers are the integers that a double holds exactly, between
    [-2^53] and [2^53]; [NaN] is kept apart. *)
Inductive value :=
  | Undefined | Null | Boolean (b : bool) | Number (n : Z) | NaN
  | Str (s : string) | Ref (l : loc) | Closure (f : closure).

(** Own properties in enumeration order, or the elements of an array. Keys
    are taken not to be array indices, which JavaScript would enumerate
    first. Properties the engine installs itself (the methods of
    [Object.prototype], the non-enumerable [constructor] of a prototype)
    are not represented: the store answers for the properties that the
    source writes and that [JSON.parse] creates. *)
Inductive shape :=
  | Plain (props : list (string * value))
  | Elements (elems : list value).

Record object := Object { proto : option loc; shape_of : shape }.

Abbreviation JS := (M (gmap loc object)).

(** The realm as the module is loaded. [Rectangle.prototype] is the object
    created with the function declaration; the source never assigns to it. *)
Definition Object_prototype : loc := 1%positive.
Definition Array_prototype : loc := 2%positive.
Definition Rectangle_prototype : loc := 3%positive.

Definition realm : gmap loc object :=
  {[ Object_prototype := Object None (Plain []);
     Array_prototype := Object (Some Object_prototype) (Elements []);
     Rectangle_prototype := Object (Some Object_prototype) (Plain []) ]}.

Definition run {A} (m : JS A) : outcome A := snd (m realm).

Definition alloc (o : object) : JS loc :=
  fun h => let l := fresh (dom h) in (<[l := o]> h, Return l).

Fixpoint lookup_prop (key : string) (props : list (string * value))
  : option value :=
  match props with
  | [] => None
  | (k, v) :: props' =>
      if String.eqb k key then Some v else lookup_prop key props'
  end.

(** Writing a property: an existing key keeps its place, a new one goes
    last. *)
Fixpoint update_prop (key : string) (v : value) (props : list (string * value))
  : list (string * value) :=
  match props with
  | [] => [(key, v)]
  | (k, w) :: props' =>
      if String.eqb k key then (k, v) :: props'
      else (k, w) :: update_prop key v props'
  end.

(** [o[key]] by the prototype chain. A chain is no longer than the store
    has objects, so [S (size h)] links are enough for any chain. *)
Fixpoint get_from (links : nat) (h : gmap loc object) (start : option loc)
    (key : string) : outcome value :=
  match start with
  | None => Return Undefined
  | Some l =>
      match links with
      | 0 => Throw Unmodelled
      | S links' =>
          match h !! l with
          | None => Throw TypeError
          | Some (Object parent (Plain props)) =>
              match lookup_prop key props with
              | Some v => Return v
              | None => get_from links' h parent key
              end
          | Some (Object _ (Elements _)) => Throw Unmodelled
          end
      end
  end.

Definition get (o : value) (key : string) : JS value :=
  fun h => match o with
           | Ref l => (h, get_from (S (size h)) h (Some l) key)
           | Undefined | Null => (h, Throw TypeError)
           | _ => (h, Throw Unmodelled)
           end.

(** [o[key] = v] *)
Definition set (o : value) (key : string) (v : value) : JS unit :=
  fun h => match o with
           | Ref l =>
               match h !! l with
               | Some (Object parent (Plain props)) =>
                   (<[l := Object parent (Plain (update_prop key v props))]> h,
                    Return tt)
               | Some (Object _ (Elements _)) => (h, Throw Unmodelled)
               | None => (h, Throw TypeError)
               end
           | Undefined | Null => (h, Throw TypeError)
           | _ => (h, Throw Unmodelled)
           end.

(** *** Arithmetic *)

Definition safe (n : Z) : bool := (Z.abs n <=? 2 ^ 53)%Z.

(** ToNumber, on the values for which it needs no parsing. *)
Definition to_number (v : value) : outcome value :=
  match v with
  | Undefined | NaN => Return NaN
  | Null => Return (Number 0)
  | Boolean b => Return (Number (if b then 1 else 0))
  | Number n => Return (Number n)
  | Str _ | Ref _ | Closure _ => Throw Unmodelled
  end.

(** [a * b] *)
Definition multiply (a b : value) : outcome value :=
  match to_number a, to_number b with
  | Return (Number x), Return (Number y) =>
      if safe (x * y) then Return (Number (x * y)) else Throw Unmodelled
  | Return _, Return _ => Return NaN
  | Throw e, _ => Throw e
  | _, Throw e => Throw e
  end.

(** *** Functions *)

(** Calling a function value with no arguments. *)
Definition call (f : value) : JS value :=
  match f with
  | Closure (getArea_of this) =>
      let* width := get (Ref this) "width" in
      let* height := get (Ref this) "height" in
      fun h => (h, multiply width height)
  | _ => throw TypeError
  end.

(** [o.name()] *)
Definition call_method (o : value) (name : string) : JS value :=
  let* f := get o name in call f.

(** The body of [function Rectangle(width, height)]. *)
Definition Rectangle (this : loc) (width height : value) : JS unit :=
  set (Ref this) "width" width;;
  set (Ref this) "height" height;;
  set (Ref this) "getArea" (Closure (getArea_of this)).

(** [new Rectangle(width, height)] *)
Definition new_Rectangle (width height : value) : JS value :=
  let* this := alloc (Object (Some Rectangle_prototype) (Plain [])) in
  Rectangle this width height;;
  ret (Ref this).

(** The object literal [{ k1: v1, ... }]. *)
Definition object_literal (props : list (string * value)) : JS value :=
  let* l := alloc (Object (Some Object_prototype) (Plain props)) in
  ret (Ref l).

(** *** JSON.stringify *)

Definition dquote : ascii := ascii_of_nat 34.
Definition backslash : ascii := ascii_of_nat 92.

(** QuoteJSONString on ASCII text; a character that needs a [\u] escape or
    lies outside ASCII is not covered. *)
Fixpoint quote_chars (cs : list ascii) : outcome (list ascii) :=
  match cs with
  | [] => Return [dquote]
  | c :: cs' =>
      match quote_chars cs' with
      | Throw e => Throw e
      | Return rest =>
          let n := nat_of_ascii c in
          if Nat.eqb n 34 then Return (backslash :: dquote :: rest)
          else if Nat.eqb n 92 then Return (backslash :: backslash :: rest)
          else if Nat.eqb n 8 then Return (backslash :: "b"%char :: rest)
          else if Nat.eqb n 9 then Return (backslash :: "t"%char :: rest)
          else if Nat.eqb n 10 then Return (backslash :: "n"%char :: rest)
          else if Nat.eqb n 12 then Return (backslash :: "f"%char :: rest)
          else if Nat.eqb n 13 then Return (backslash :: "r"%char :: rest)
          else if Nat.ltb n 32 || Nat.ltb 127 n then Throw Unmodelled
          else Return (c :: rest)
      end
  end.

Definition quote (s : string) : outcome string :=
  match quote_chars (list_ascii_of_string s) with
  | Return cs => Return (string_of_list_ascii (dquote :: cs))
  | Throw e => Throw e
  end.

(** SerializeJSONProperty. The result [None] is JavaScript's [undefined]:
    such a property is left out of an object and written [null] in an
    array. [depth] bounds the nesting of objects; a nesting deeper than the
    store has objects goes through one object twice, which is the cyclic
    structure that [JSON.stringify] rejects with a TypeError. *)
Fixpoint serialize (depth : nat) (h : gmap loc object) (v : value)
  : outcome (option string) :=
  match v with
  | Undefined | Closure _ => Return None
  | Null | NaN => Return (Some "null")
  | Boolean b => Return (Some (if b then "true" else "false"))
  | Number n =>
      if safe n then Return (Some (NilZero.string_of_int (Z.to_int n)))
      else Throw Unmodelled
  | Str s =>
      match quote s with
      | Return q => Return (Some q)
      | Throw e => Throw e
      end
  | Ref l =>
      match depth with
      | 0 => Throw TypeError
      | S depth' =>
          match h !! l with
          | None => Throw TypeError
          | Some (Object _ (Elements elems)) =>
              match
                (fix items (vs : list value) : outcome (list string) :=
                   match vs with
                   | [] => Return []
                   | v' :: vs' =>
                       match serialize depth' h v' with
                       | Throw e => Throw e
                       | Return text =>
                           match items vs' with
                           | Throw e => Throw e
                           | Return rest => Return (default "null" text :: rest)
                           end
                       end
                   end) elems
              with
              | Throw e => Throw e
              | Return texts => Return (Some ("[" +:+ String.concat "," texts +:+ "]"))
              end
          | Some (Object _ (Plain props)) =>
              match
                (fix members (ps : list (string * value)) : outcome (list string) :=
                   match ps with
                   | [] => Return []
                   | (k, v') :: ps' =>
                       match serialize depth' h v', quote k with
                       | Throw e, _ => Throw e
                       | _, Throw e => Throw e
                       | Return text, Return key =>
                           match members ps' with
                           | Throw e => Throw e
                           | Return rest =>
                               match text with
                               | Some t => Return ((key +:+ ":" +:+ t) :: rest)
                               | None => Return rest
                               end
                           end
                       end
                   end) props
              with
              | Throw e => Throw e
              | Return texts => Return (Some ("{" +:+ String.concat "," texts +:+ "}"))
              end
          end
      end
  end.

Definition JSON_stringify (v : value) : JS value :=
  fun h => match serialize (S (size h)) h v with
           | Return (Some text) => (h, Return (Str text))
           | Return None => (h, Return Undefined)
           | Throw e => (h, Throw e)
           end.

(** *** JSON.parse *)

(** The value graph a JSON text denotes. *)
Unset Elimination Schemes.
Inductive json :=
  | JNull | JBool (b : bool) | JNumber (n : Z) | JString (s : string)
  | JArray (items : list json) | JObject (members : list (string * json)).
Set Elimination Schemes.

(** A parser step: what was read and the text left, or the failure. *)
Inductive parsed (A : Type) := Read (a : A) (rest : list ascii) | Fail (e : exn).
Arguments Read {A} a rest.
Arguments Fail {A} e.

Definition is_ws (c : ascii) : bool :=
  let n := nat_of_ascii c in
  Nat.eqb n 32 || Nat.eqb n 9 || Nat.eqb n 10 || Nat.eqb n 13.

Fixpoint skip_ws (cs : list ascii) : list ascii :=
  match cs with
  | c :: cs' => if is_ws c then skip_ws cs' else cs
  | [] => []
  end.

Definition is_digit (c : ascii) : bool :=
  let n := nat_of_ascii c in Nat.leb 48 n && Nat.leb n 57.

Fixpoint take_digits (cs : list ascii) : list ascii * list ascii :=
  match cs with
  | c :: cs' =>
      if is_digit c
      then let (ds, rest) := take_digits cs' in (c :: ds, rest)
      else ([], cs)
  | [] => ([], [])
  end.

Definition digits_value (ds : list ascii) : Z :=
  fold_left (fun acc c => (10 * acc + Z.of_nat (nat_of_ascii c - 48))%Z) ds 0%Z.

(** An integer literal: digits without a leading zero. A fraction or an
    exponent after it, a magnitude beyond [2^53] and the negative zero are
    not covered. *)
Definition parse_digits (negative : bool) (cs : list ascii) : parsed json :=
  match take_digits cs with
  | ([], _) => Fail SyntaxError
  | (d :: ds, rest) =>
      if Nat.eqb (nat_of_ascii d) 48 && negb (Nat.eqb (length ds) 0)
      then Fail SyntaxError
      else
        match rest with
        | ("."%char | "e"%char | "E"%char) :: _ => Fail Unmodelled
        | _ =>
            let n := digits_value (d :: ds) in
            if negb (safe n) || (negative && (n =? 0)%Z) then Fail Unmodelled
            else Read (JNumber (if negative then (- n)%Z else n)) rest
        end
  end.

(** The characters of a string literal after its opening quote. *)
Fixpoint parse_chars (cs : list ascii) : parsed (list ascii) :=
  match cs with
  | [] => Fail SyntaxError
  | c :: cs' =>
      let n := nat_of_ascii c in
      if Nat.eqb n 34 then Read [] cs'
      else if Nat.eqb n 92 then
        match cs' with
        | e :: cs'' =>
            let unescaped :=
              match e with
              | "b"%char => Some (ascii_of_nat 8)
              | "t"%char => Some (ascii_of_nat 9)
              | "n"%char => Some (ascii_of_nat 10)
              | "f"%char => Some (ascii_of_nat 12)
              | "r"%char => Some (ascii_of_nat 13)
              | "/"%char => Some "/"%char
              | _ => if Nat.eqb (nat_of_ascii e) 34 then Some dquote
                     else if Nat.eqb (nat_of_ascii e) 92 then Some backslash
                     else None
              end in
            match unescaped with
            | Some c' =>
                match parse_chars cs'' with
                | Read s rest => Read (c' :: s) rest
                | Fail x => Fail x
                end
            | None =>
                if Ascii.eqb e "u"%char then Fail Unmodelled else Fail SyntaxError
            end
        | [] => Fail SyntaxError
        end
      else if Nat.ltb n 32 then Fail SyntaxError
      else if Nat.ltb 127 n then Fail Unmodelled
      else
        match parse_chars cs' with
        | Read s rest => Read (c :: s) rest
        | Fail x => Fail x
        end
  end.

Definition parse_string (cs : list ascii) : parsed string :=
  match cs with
  | c :: cs' =>
      if Ascii.eqb c dquote then
        match parse_chars cs' with
        | Read s rest => Read (string_of_list_ascii s) rest
        | Fail x => Fail x
        end
      else Fail SyntaxError
  | [] => Fail SyntaxError
  end.

Fixpoint strip_prefix (word cs : list ascii) : option (list ascii) :=
  match word, cs with
  | [], _ => Some cs
  | w :: word', c :: cs' => if Ascii.eqb w c then strip_prefix word' cs' else None
  | _ :: _, [] => None
  end.

Definition parse_word (word : string) (j : json) (cs : list ascii) : parsed json :=
  match strip_prefix (list_ascii_of_string word) cs with
  | Some rest => Read j rest
  | None => Fail SyntaxError
  end.

(** The JSON grammar by recursive descent. Every call made with less budget
    is made on a shorter text, so a budget above the length of the text is
    never used up. *)
Fixpoint parse_value (budget : nat) (cs : list ascii) : parsed json :=
  match budget with
  | 0 => Fail Unmodelled
  | S budget' =>
      match skip_ws cs with
      | [] => Fail SyntaxError
      | c :: rest =>
          if Ascii.eqb c "{"%char then
            match skip_ws rest with
            | "}"%char :: rest' => Read (JObject []) rest'
            | _ =>
                match parse_members budget' rest with
                | Read ms rest' => Read (JObject ms) rest'
                | Fail x => Fail x
                end
            end
          else if Ascii.eqb c "["%char then
            match skip_ws rest with
            | "]"%char :: rest' => Read (JArray []) rest'
            | _ =>
                match parse_items budget' rest with
                | Read js rest' => Read (JArray js) rest'
                | Fail x => Fail x
                end
            end
          else if Ascii.eqb c dquote then
            match parse_string (c :: rest) with
            | Read s rest' => Read (JString s) rest'
            | Fail x => Fail x
            end
          else if Ascii.eqb c "-"%char then parse_digits true rest
          else if is_digit c then parse_digits false (c :: rest)
          else if Ascii.eqb c "t"%char then parse_word "true" (JBool true) (c :: rest)
          else if Ascii.eqb c "f"%char then parse_word "false" (JBool false) (c :: rest)
          else if Ascii.eqb c "n"%char then parse_word "null" JNull (c :: rest)
          else Fail SyntaxError
      end
  end
with parse_members (budget : nat) (cs : list ascii)
  : parsed (list (string * json)) :=
  match budget with
  | 0 => Fail Unmodelled
  | S budget' =>
      match parse_string (skip_ws cs) with
      | Fail x => Fail x
      | Read key rest =>
          match skip_ws rest with
          | ":"%char :: rest1 =>
              match parse_value budget' rest1 with
              | Fail x => Fail x
              | Read j rest2 =>
                  match skip_ws rest2 with
                  | ","%char :: rest3 =>
                      match parse_members budget' rest3 with
                      | Read ms rest4 => Read ((key, j) :: ms) rest4
                      | Fail x => Fail x
                      end
                  | "}"%char :: rest3 => Read [(key, j)] rest3
                  | _ => Fail SyntaxError
                  end
              end
          | _ => Fail SyntaxError
          end
      end
  end
with parse_items (budget : nat) (cs : list ascii) : parsed (list json) :=
  match budget with
  | 0 => Fail Unmodelled
  | S budget' =>
      match parse_value budget' cs with
      | Fail x => Fail x
      | Read j rest =>
          match skip_ws rest with
          | ","%char :: rest1 =>
              match parse_items budget' rest1 with
              | Read js rest2 => Read (j :: js) rest2
              | Fail x => Fail x
              end
          | "]"%char :: rest1 => Read [j] rest1
          | _ => Fail SyntaxError
          end
      end
  end.

Definition parse_text (text : string) : outcome json :=
  let cs := list_ascii_of_string text in
  match parse_value (S (length cs)) cs with
  | Fail x => Throw x
  | Read j rest =>
      match skip_ws rest with
      | [] => Return j
      | _ :: _ => Throw SyntaxError
      end
  end.

(** The objects and arrays [JSON.parse] creates for a value graph: plain
    objects under [Object.prototype]; of two members with one key the later
    value is kept, in the place of the first. *)
Fixpoint reify (j : json) : JS value :=
  match j with
  | JNull => ret Null
  | JBool b => ret (Boolean b)
  | JNumber n => ret (Number n)
  | JString s => ret (Str s)
  | JArray items =>
      let* elems :=
        (fix each (js : list json) : JS (list value) :=
           match js with
           | [] => ret []
           | j' :: js' =>
               let* v := reify j' in
               let* vs := each js' in
               ret (v :: vs)
           end) items in
      let* l := alloc (Object (Some Array_prototype) (Elements elems)) in
      ret (Ref l)
  | JObject members =>
      let* props :=
        (fix each (ms : list (string * json)) (acc : list (string * value))
           : JS (list (string * value)) :=
           match ms with
           | [] => ret acc
           | (k, j') :: ms' =>
               let* v := reify j' in
               each ms' (update_prop k v acc)
           end) members [] in
      let* l := alloc (Object (Some Object_prototype) (Plain props)) in
      ret (Ref l)
  end.

Definition JSON_parse (text : string) : JS value :=
  fun h => match parse_text text with
           | Return j => reify j h
           | Throw e => (h, Throw e)
           end.

(** *** Object.setPrototypeOf and Object.getPrototypeOf *)

(** Does the chain that starts at [start] go through [target]? *)
Fixpoint reaches (links : nat) (h : gmap loc object) (start : option loc)
    (target : loc) : bool :=
  match start, links with
  | None, _ => false
  | Some _, 0 => true
  | Some l, S links' =>
      if decide (l = target) then true
      else match h !! l with
           | Some o => reaches links' h (proto o) target
           | None => false
           end
  end.

(** A function is an object too, but the store holds no function objects:
    a function passed as the prototype of an object, or as the object whose
    prototype is set, is outside the model. A primitive is returned as it
    is once the prototype is seen to be an object or [null]. *)
Definition Object_setPrototypeOf (o parent : value) : JS value :=
  fun h =>
    match o with
    | Undefined | Null => (h, Throw TypeError)
    | Ref l =>
        let change (p : option loc) :=
          match h !! l with
          | Some (Object _ sh) =>
              if reaches (S (size h)) h p l then (h, Throw TypeError)
              else (<[l := Object p sh]> h, Return o)
          | None => (h, Throw TypeError)
          end in
        match parent with
        | Ref p => change (Some p)
        | Null => change None
        | Closure _ => (h, Throw Unmodelled)
        | _ => (h, Throw TypeError)
        end
    | Closure _ =>
        match parent with
        | Ref _ | Null | Closure _ => (h, Throw Unmodelled)
        | _ => (h, Throw TypeError)
        end
    | Boolean _ | Number _ | NaN | Str _ =>
        match parent with
        | Ref _ | Null | Closure _ => (h, Return o)
        | _ => (h, Throw TypeError)
        end
    end.

Definition Object_getPrototypeOf (o : value) : JS value :=
  fun h =>
    match o with
    | Ref l =>
        match h !! l with
        | Some (Object (Some p) _) => (h, Return (Ref p))
        | Some (Object None _) => (h, Return Null)
        | None => (h, Throw TypeError)
        end
    | Undefined | Null => (h, Throw TypeError)
    | _ => (h, Throw Unmodelled)
    end.

(** *** The two helpers of the source *)

(** [return JSON.stringify(obj);] *)
Definition getJSON (obj : value) : JS value := JSON_stringify obj.

(** [return Object.setPrototypeOf(JSON.parse(json), proto);] where [json]
    is a string, as the source documents it. *)
Definition fromJSON (proto : value) (json : value) : JS value :=
  match json with
  | Str text =>
      let* parsed := JSON_parse text in
      Object_setPrototypeOf parsed proto
  | _ => throw Unmodelled
  end.

(** The scenario of C9: encode [{width: 10, height: 20}], decode the text
    under [Rectangle.prototype]. *)
Definition decoded : JS value :=
  let* o := object_literal [("width", Number 10); ("height", Number 20)] in
  let* text := getJSON o in
  fromJSON (Ref Rectangle_prototype) text.

(** C9 as the specification states it: what the decoded object shows for
    [width], [height] and [getArea()]. *)
Definition decoded_rectangle : JS (value * value * value) :=
  let* r := decoded in
  let* width := get r "width" in
  let* height := get r "height" in
  let* area := call_method r "getArea" in
  ret (width, height, area).

(** What the decoded object is: its two fields, its prototype and what
    reading [getArea] gives. *)
Definition decoded_shape : JS (value * value * value * value) :=
  let* r := decoded in
  let* width := get r "width" in
  let* height := get r "height" in
  let* parent := Object_getPrototypeOf r in
  let* method := get r "getArea" in
  ret (width, height, parent, method).

End Objects.

(** ** The selector builder: proofs *)

Module BuilderFacts.
Import Builder.

(** *** The documented examples *)

(** The nested [combine] of the source's comment, the arguments evaluated
    left to right and innermost call first, as JavaScript does. Each inner
    [combine] returns [cssSelectorBuilder], which the enclosing call then
    reads and empties. *)
Example combine_documented :
  run (let* x := build cssSelectorBuilder
                   [(Type_, "div"); (Id, "main"); (Class, "container");
                    (Class, "draggable")] in
       let* y := build cssSelectorBuilder [(Type_, "table"); (Id, "data")] in
       let* z := build cssSelectorBuilder
                   [(Type_, "tr"); (PseudoClass, "nth-of-type(even)")] in
       let* w := build cssSelectorBuilder
                   [(Type_, "td"); (PseudoClass, "nth-of-type(even)")] in
       let* zw := combine cssSelectorBuilder z " " w in
       let* yzw := combine cssSelectorBuilder y "~" zw in
       let* all := combine cssSelectorBuilder x "+" yzw in
       stringify all)
  = Return "div#main.container.draggable + table#data ~ tr:nth-of-type(even)   td:nth-of-type(even)".
Proof. vm_compute. reflexivity. Qed.

(** Nesting on the left, [combine(combine(a, '+', b), '~', element('c'))]:
    the inner call has left its text in [cssSelectorBuilder], and
    [element('c')] copies that text before adding its own. *)
Example combine_left_nested :
  run (let* a := element cssSelectorBuilder "a" in
       let* b := element cssSelectorBuilder "b" in
       let* ab := combine cssSelectorBuilder a "+" b in
       let* c := element cssSelectorBuilder "c" in
       let* all := combine cssSelectorBuilder ab "~" c in
       stringify all)
  = Return "a + b ~ a + bc".
Proof. vm_compute. reflexivity. Qed.

Lemma fresh_obj_None (h : heap) : objs h !! fresh (dom (objs h)) = None.
Proof. apply not_elem_of_dom, is_fresh. Qed.

Lemma fresh_arr_None (h : heap) : arrs h !! fresh (dom (arrs h)) = None.
Proof. apply not_elem_of_dom, is_fresh. Qed.

Lemma truthy_id (s : string) : (if truthy s then s else "") = s.
Proof. unfold truthy. destruct (String.eqb_spec s ""); simpl; congruence. Qed.

Lemma checkOrder_scan_spec (later : list bool) (h : heap) :
  checkOrder_scan later h =
  (h, if existsb (fun used => used) later then Throw OrderViolation else Return tt).
Proof.
  induction later as [|[] later IH]; simpl; try reflexivity. apply IH.
Qed.

Lemma checkOrder_spec (h : heap) (this : loc) (order : nat) s a u :
  objs h !! this = Some (Obj s a) -> arrs h !! a = Some u ->
  checkOrder this order h =
  (h, if later_used order u then Throw OrderViolation else Return tt).
Proof.
  intros Ho Ha. unfold checkOrder, selectorUsed, bind, getObj, getArr.
  rewrite Ho. simpl. rewrite Ha. apply checkOrder_scan_spec.
Qed.

Lemma copyObject_spec (h : heap) (this : loc) s a u :
  objs h !! this = Some (Obj s a) -> arrs h !! a = Some u ->
  copyObject this h = (copied h s u, Return (fresh (dom (objs h)))).
Proof.
  intros Ho Ha.
  assert (Hne : fresh (dom (objs h)) <> this).
  { intros E. pose proof (fresh_obj_None h) as F. rewrite E in F. congruence. }
  unfold copyObject, selectorUsed, bind, getObj, newObj, getArr, newArr, setObj, ret.
  rewrite Ho. simpl. rewrite lookup_insert_ne by exact Hne. rewrite Ho. simpl.
  rewrite Ha. simpl. rewrite lookup_insert_eq. simpl.
  unfold copied. rewrite insert_insert_eq. reflexivity.
Qed.

Lemma selectorUsed_copied (h : heap) s u :
  selectorUsed (fresh (dom (objs h))) (copied h s u) = (copied h s u, Return u).
Proof.
  unfold selectorUsed, bind, getObj, getArr, copied. simpl.
  rewrite lookup_insert_eq. simpl. rewrite lookup_insert_eq. reflexivity.
Qed.

Lemma selectorUsed_store_copied (h : heap) s u i v :
  selectorUsed_store (fresh (dom (objs h))) i v (copied h s u) =
  (copied h s (array_set i v u), Return tt).
Proof.
  unfold selectorUsed_store, bind, getObj, getArr, setArr, copied. simpl.
  rewrite lookup_insert_eq. simpl. rewrite lookup_insert_eq. simpl.
  rewrite insert_insert_eq. reflexivity.
Qed.

Lemma getString_copied (h : heap) s u value :
  getString (fresh (dom (objs h))) value (copied h s u) =
  (copied h (s +:+ value) u, Return tt).
Proof.
  unfold getString, bind, getObj, setObj, copied. simpl.
  rewrite lookup_insert_eq. simpl. rewrite lookup_insert_eq. simpl.
  rewrite !insert_insert_eq, truthy_id. reflexivity.
Qed.

Lemma append_spec (c : category) (h : heap) (this : loc) value s a u :
  objs h !! this = Some (Obj s a) -> arrs h !! a = Some u ->
  append c this value h = append_result c value h s u.
Proof.
  intros Ho Ha. unfold append_result.
  destruct c; simpl;
    unfold element, id, class, attr, pseudoClass, pseudoElement, bind;
    rewrite (checkOrder_spec h this _ s a u Ho Ha);
    (destruct (later_used _ u); [reflexivity|]);
    rewrite (copyObject_spec h this s a u Ho Ha);
    rewrite ?selectorUsed_copied;
    try (destruct (array_get _ u); [reflexivity|]); simpl;
    rewrite selectorUsed_store_copied, getString_copied; reflexivity.
Qed.

(** *** Strings and flag arrays *)

Lemma string_app_assoc (s1 s2 s3 : string) :
  (s1 +:+ s2) +:+ s3 = s1 +:+ (s2 +:+ s3).
Proof.
  induction s1 as [|a s1 IH]; [reflexivity|].
  change (String a ((s1 +:+ s2) +:+ s3) = String a (s1 +:+ (s2 +:+ s3))).
  by rewrite IH.
Qed.

Lemma string_app_nil_r (s : string) : s +:+ "" = s.
Proof.
  induction s as [|a s IH]; [reflexivity|].
  change (String a (s +:+ "") = String a s). by rewrite IH.
Qed.

Lemma texts_cons c value ops :
  texts ((c, value) :: ops) = decorate c value +:+ texts ops.
Proof. reflexivity. Qed.

Lemma later_used_true (order : nat) (u : list bool) :
  later_used order u = true <-> exists i, order < i /\ u !! i = Some true.
Proof.
  unfold later_used. rewrite existsb_exists. split.
  - intros (x & Hin & ->). apply list_elem_of_In, list_elem_of_lookup in Hin.
    destruct Hin as [i Hi]. rewrite lookup_drop in Hi.
    exists (order + 1 + i). split; [lia | exact Hi].
  - intros (i & Hlt & Hi). exists true. split; [|reflexivity].
    apply list_elem_of_In, list_elem_of_lookup. exists (i - (order + 1)).
    rewrite lookup_drop. replace (order + 1 + (i - (order + 1))) with i by lia.
    exact Hi.
Qed.

Lemma later_used_false (order : nat) (u : list bool) :
  later_used order u = false <-> forall i, order < i -> array_get i u = false.
Proof.
  split.
  - intros H i Hlt. unfold array_get.
    destruct (u !! i) as [[]|] eqn:E; try reflexivity.
    assert (later_used order u = true) by (apply later_used_true; eauto).
    congruence.
  - intros H. destruct (later_used order u) eqn:E; [|reflexivity].
    apply later_used_true in E as (i & Hlt & Hi).
    specialize (H i Hlt). unfold array_get in H. rewrite Hi in H. discriminate.
Qed.

Lemma array_set_length (i : nat) (v : bool) (u : list bool) :
  i < length u -> length (array_set i v u) = length u.
Proof.
  intros H. unfold array_set. rewrite decide_True by exact H.
  apply length_insert.
Qed.

Lemma array_get_set (i j : nat) (v : bool) (u : list bool) :
  i < length u ->
  array_get j (array_set i v u) = if decide (j = i) then v else array_get j u.
Proof.
  intros H. unfold array_set, array_get. rewrite decide_True by exact H.
  destruct (decide (j = i)) as [->|Hne].
  - by rewrite list_lookup_insert_eq.
  - by rewrite list_lookup_insert_ne.
Qed.

Lemma index_lt_6 (c : category) : index c < 6.
Proof. destruct c; simpl; lia. Qed.

Lemma index_inj (c1 c2 : category) : index c1 = index c2 -> c1 = c2.
Proof. destruct c1, c2; simpl; congruence. Qed.

(** *** Old references after a copy *)

Lemma copied_objs_old (h : heap) s u (l : loc) (o : obj) :
  objs h !! l = Some o -> objs (copied h s u) !! l = Some o.
Proof.
  intros H. unfold copied. simpl. rewrite lookup_insert_ne; [exact H|].
  intros E. pose proof (fresh_obj_None h) as F. rewrite E in F. congruence.
Qed.

Lemma copied_arrs_old (h : heap) s u (a : loc) (x : list bool) :
  arrs h !! a = Some x -> arrs (copied h s u) !! a = Some x.
Proof.
  intros H. unfold copied. simpl. rewrite lookup_insert_ne; [exact H|].
  intros E. pose proof (fresh_arr_None h) as F. rewrite E in F. congruence.
Qed.

Lemma selector_copied_old (h : heap) s' u' l s u :
  selector h l s u -> selector (copied h s' u') l s u.
Proof.
  intros (a & Ho & Ha & Hlen). exists a.
  eauto using copied_objs_old, copied_arrs_old.
Qed.

Lemma selector_copied_new (h : heap) s u :
  length u = 6 -> selector (copied h s u) (fresh (dom (objs h))) s u.
Proof.
  intros Hlen. exists (fresh (dom (arrs h))). unfold copied. simpl.
  by rewrite !lookup_insert_eq.
Qed.

Lemma selector_inj (h : heap) l s1 u1 s2 u2 :
  selector h l s1 u1 -> selector h l s2 u2 -> s1 = s2 /\ u1 = u2.
Proof.
  intros (a1 & Ho1 & Ha1 & _) (a2 & Ho2 & Ha2 & _).
  rewrite Ho1 in Ho2. injection Ho2 as -> ->. rewrite Ha1 in Ha2.
  by injection Ha2 as ->.
Qed.

Lemma append_selector (c : category) (h : heap) (this : loc) value s u :
  selector h this s u ->
  append c this value h = append_result c value h s u.
Proof. intros (a & Ho & Ha & _). by eapply append_spec. Qed.

(** A successful append, read back: no later slot was in use, the own slot
    was free if the method tests it, and the result is the fresh copy. *)
Lemma append_Return (c : category) (h h' : heap) (this r : loc) value s u :
  selector h this s u ->
  append c this value h = (h', Return r) ->
  later_used (index c) u = false /\
  (once c = true -> array_get (index c) u = false) /\
  r = fresh (dom (objs h)) /\
  h' = copied h (s +:+ decorate c value) (array_set (index c) true u).
Proof.
  intros Hsel. rewrite (append_selector c h this value s u Hsel).
  unfold append_result. destruct (later_used (index c) u); [discriminate|].
  destruct (once c); simpl.
  - destruct (array_get (index c) u); [discriminate|].
    intros [= <- <-]. auto.
  - intros [= <- <-]. repeat split; auto. discriminate.
Qed.

(** *** Chains of appends *)

Lemma build_cons (c : category) value ops (this : loc) (h : heap) :
  build this ((c, value) :: ops) h =
  match append c this value h with
  | (h1, Return next) => build next ops h1
  | (h1, Throw e) => (h1, Throw e)
  end.
Proof. reflexivity. Qed.

(** A chain that returns has appended every text, in call order, and has set
    the flag of every category it went through, keeping those already set. *)
Lemma build_Return (ops : list (category * string)) :
  forall (h h' : heap) (this r : loc) s u,
    selector h this s u ->
    build this ops h = (h', Return r) ->
    exists u', selector h' r (s +:+ texts ops) u' /\
      (forall i, array_get i u = true -> array_get i u' = true) /\
      (forall op, op ∈ ops -> array_get (index op.1) u' = true).
Proof.
  induction ops as [|[c value] ops IH]; intros h h' this r s u Hsel Hrun.
  - injection Hrun as <- <-. exists u. unfold texts. simpl.
    rewrite string_app_nil_r. split; [exact Hsel|]. split; [auto|].
    intros op Hin. by apply elem_of_nil in Hin.
  - rewrite build_cons in Hrun.
    destruct (append c this value h) as [h1 [next|e]] eqn:Happ; [|discriminate].
    destruct (append_Return c h h1 this next value s u Hsel Happ)
      as (_ & _ & -> & ->).
    assert (Hlen : length u = 6) by (destruct Hsel as (? & ? & ? & ?); done).
    assert (Hi : index c < length u) by (rewrite Hlen; apply index_lt_6).
    eapply IH in Hrun; [|apply selector_copied_new; by rewrite array_set_length].
    destruct Hrun as (u' & Hsel' & Hkeep & Hnew). exists u'.
    rewrite texts_cons, <- string_app_assoc. split; [exact Hsel'|]. split.
    + intros i Hu. apply Hkeep. rewrite array_get_set by exact Hi.
      by destruct (decide (i = index c)).
    + intros op [->|Hin]%elem_of_cons; [|by apply Hnew]. simpl.
      apply Hkeep. rewrite array_get_set by exact Hi. by rewrite decide_True.
Qed.

(** The chains that return: in slot order, element, id and pseudo-element at
    most once, and none of it already excluded by the receiver's flags. *)
Lemma build_succeeds (ops : list (category * string)) :
  forall (h : heap) (this : loc) s u,
    selector h this s u ->
    StronglySorted slot_le ops ->
    at_most_once ops ->
    (forall op, op ∈ ops ->
       later_used (index op.1) u = false /\
       (once op.1 = true -> array_get (index op.1) u = false)) ->
    exists h' r, build this ops h = (h', Return r).
Proof.
  induction ops as [|[c value] ops IH]; intros h this s u Hsel Hord Honce Hfree.
  - by exists h, this.
  - rewrite build_cons, (append_selector c h this value s u Hsel).
    unfold append_result.
    destruct (Hfree (c, value)) as [Hlate Hown]; [by left|].
    simpl in Hlate, Hown. rewrite Hlate.
    assert (Hlen : length u = 6) by (destruct Hsel as (? & ? & ? & ?); done).
    assert (Hi : index c < length u) by (rewrite Hlen; apply index_lt_6).
    replace (once c && array_get (index c) u) with false
      by (destruct (once c); simpl; [by rewrite Hown|done]).
    inversion Hord as [|? ? Hord' Hall]; subst.
    eapply IH; [apply selector_copied_new; by rewrite array_set_length
               | exact Hord' | |].
    + intros c' Hc'. specialize (Honce c' Hc').
      rewrite filter_cons in Honce. destruct (decide ((c, value).1 = c'));
        simpl in Honce; lia.
    + intros [c' v'] Hin. simpl.
      destruct (Hfree (c', v')) as [Hlater Hown']; [by right|]. simpl in *.
      rewrite Forall_forall in Hall. specialize (Hall _ Hin).
      unfold slot_le in Hall. simpl in Hall.
      split.
      * apply later_used_false. intros i Hlt.
        rewrite array_get_set by exact Hi. rewrite decide_False by lia.
        by apply (proj1 (later_used_false _ _) Hlater).
      * intros Hc'. rewrite array_get_set by exact Hi.
        destruct (decide (index c' = index c)) as [E%index_inj|]; [|auto].
        subst c'. specialize (Honce c Hc'). rewrite filter_cons in Honce.
        simpl in Honce. rewrite decide_True in Honce by done. simpl in Honce.
        assert ((c, v') ∈ filter (fun op => op.1 = c) ops)
          by (apply list_elem_of_filter; done).
        destruct (filter (fun op => op.1 = c) ops); simpl in *;
          [by apply elem_of_nil in H | lia].
Qed.

(** *** Call order and slot order *)

Lemma string_app_nil_l (s : string) : "" +:+ s = s.
Proof. reflexivity. Qed.

Lemma slot_text_cons_eq c value ops :
  slot_text c ((c, value) :: ops) = decorate c value +:+ slot_text c ops.
Proof. unfold slot_text. rewrite filter_cons, decide_True by done. reflexivity. Qed.

Lemma slot_text_cons_ne k c value ops :
  c <> k -> slot_text k ((c, value) :: ops) = slot_text k ops.
Proof. intros H. unfold slot_text. by rewrite filter_cons, decide_False. Qed.

Lemma slot_text_lower k c ops :
  Forall (slot_le c) ops -> index k < index c.1 -> slot_text k ops = "".
Proof.
  intros Hall Hlt. unfold slot_text.
  induction Hall as [|op ops Hle Hall IH]; [reflexivity|].
  rewrite filter_cons, decide_False; [exact IH|].
  unfold slot_le in Hle. intros E. rewrite E in Hle. lia.
Qed.

Lemma in_order_strongly (ops : list (category * string)) :
  in_order ops -> StronglySorted slot_le ops.
Proof.
  apply Sorted_StronglySorted. intros x y z. unfold slot_le. lia.
Qed.

(** For a chain in slot order, the texts in call order are the slots' texts
    in index order. *)
Lemma texts_in_slot_order (ops : list (category * string)) :
  in_order ops -> texts ops = render_by_slots ops.
Proof.
  intros H%in_order_strongly. induction H as [|[c value] ops Hord IH Hall].
  - reflexivity.
  - rewrite texts_cons, IH. unfold render_by_slots. simpl.
    destruct c;
      rewrite slot_text_cons_eq, !slot_text_cons_ne by discriminate;
      rewrite ?(slot_text_lower Type_ _ ops Hall) by (simpl; lia);
      rewrite ?(slot_text_lower Id _ ops Hall) by (simpl; lia);
      rewrite ?(slot_text_lower Class _ ops Hall) by (simpl; lia);
      rewrite ?(slot_text_lower Attribute _ ops Hall) by (simpl; lia);
      rewrite ?(slot_text_lower PseudoClass _ ops Hall) by (simpl; lia);
      rewrite ?string_app_nil_l, ?string_app_assoc; reflexivity.
Qed.

Lemma stringify_selector (h : heap) (this : loc) s u :
  selector h this s u -> snd (stringify this h) = Return s.
Proof.
  intros (a & Ho & _). unfold stringify, bind, getObj. by rewrite Ho.
Qed.

Lemma selector_initial :
  selector initial_heap cssSelectorBuilder ""
           [false; false; false; false; false; false].
Proof. by exists 1%positive. Qed.

(** *** More on chains *)

Lemma build_app (ops1 ops2 : list (category * string)) :
  forall (this : loc) (h : heap),
    build this (ops1 ++ ops2) h =
    match build this ops1 h with
    | (h1, Return r1) => build r1 ops2 h1
    | (h1, Throw e) => (h1, Throw e)
    end.
Proof.
  induction ops1 as [|[c value] ops1 IH]; intros this h; [reflexivity|].
  rewrite <- app_comm_cons, !build_cons.
  destruct (append c this value h) as [h1 [next|e]]; [apply IH | reflexivity].
Qed.

(** In a chain that returns, a category that tests its own slot found it
    free at the start. *)
Lemma build_Return_once (ops : list (category * string)) :
  forall (h h' : heap) (this r : loc) s u,
    selector h this s u ->
    build this ops h = (h', Return r) ->
    forall op, op ∈ ops -> once op.1 = true -> array_get (index op.1) u = false.
Proof.
  induction ops as [|[c value] ops IH]; intros h h' this r s u Hsel Hrun op Hin Hop.
  - by apply elem_of_nil in Hin.
  - rewrite build_cons in Hrun.
    destruct (append c this value h) as [h1 [next|e]] eqn:Happ; [|discriminate].
    destruct (append_Return c h h1 this next value s u Hsel Happ)
      as (_ & Hown & -> & ->).
    assert (Hlen : length u = 6) by (destruct Hsel as (? & ? & ? & ?); done).
    assert (Hi : index c < length u) by (rewrite Hlen; apply index_lt_6).
    apply elem_of_cons in Hin as [->|Hin]; [by apply Hown|].
    eapply IH in Hrun;
      [|apply selector_copied_new; by rewrite array_set_length|exact Hin|exact Hop].
    rewrite array_get_set in Hrun by exact Hi.
    by destruct (decide (index op.1 = index c)).
Qed.

Lemma later_used_last (u : list bool) : length u = 6 -> later_used 5 u = false.
Proof.
  intros Hlen. apply later_used_false. intros i Hi. unfold array_get.
  rewrite lookup_ge_None_2 by lia. reflexivity.
Qed.

Lemma observe_copied (h : heap) s u :
  observe (copied h s u, Return (fresh (dom (objs h)))) = Return (s, u).
Proof. unfold observe, copied. simpl. by rewrite !lookup_insert_eq. Qed.

Lemma combine_spec (h : heap) (this A B : loc) (t sA sB sT : string)
    (aA aB aT : loc) :
  objs h !! A = Some (Obj sA aA) ->
  objs h !! B = Some (Obj sB aB) ->
  objs h !! this = Some (Obj sT aT) ->
  combine this A t B h =
  (Heap (<[this := Obj (sA +:+ " " +:+ t +:+ " " +:+
                        (if decide (A = B) then "" else sB)) aT]>
           (<[B := Obj "" aB]> (<[A := Obj "" aA]> (objs h))))
        (arrs h),
   Return this).
Proof.
  intros HA HB HT. unfold combine, stringify, bind, getObj, setObj, ret.
  rewrite HA. simpl.
  destruct (decide (A = B)) as [->|HAB];
    destruct (decide (B = this)) as [->|HBT];
    try destruct (decide (A = this)) as [->|HAT];
    simplify_eq;
    repeat (first [rewrite lookup_insert_eq | rewrite lookup_insert_ne by done
                  | rewrite HA | rewrite HB | rewrite HT]; simpl);
    rewrite ?insert_insert_eq; reflexivity.
Qed.

(** ** The claims *)

(** C1, refuted: after [builder.combine(a, '+', b)] whose result has not
    been rendered, the chain [builder.id('main').class('c')], which is in
    slot order and returns, renders [a + b#main.c] and not [#main.c]. *)
Lemma chain_renders_slots_counterexample : ~ chain_renders_slots.
Proof.
  intros H.
  assert (Hsel : selector heap_combined cssSelectorBuilder "a + b"
                          [false; false; false; false; false; false]).
  { exists 1%positive. vm_compute. auto. }
  assert (Hord : in_order [(Id, "main"); (Class, "c")]).
  { unfold in_order, slot_le. repeat (constructor; simpl; try lia). }
  assert (Hrun : build cssSelectorBuilder [(Id, "main"); (Class, "c")]
                    heap_combined
                  = (fst (build cssSelectorBuilder [(Id, "main"); (Class, "c")]
                            heap_combined), Return 5%positive)).
  { vm_compute. reflexivity. }
  assert (Hreal : snd (stringify 5%positive
                         (fst (build cssSelectorBuilder
                                 [(Id, "main"); (Class, "c")] heap_combined)))
                   = Return "a + b#main.c").
  { vm_compute. reflexivity. }
  assert (Hslots : render_by_slots [(Id, "main"); (Class, "c")] = "#main.c").
  { vm_compute. reflexivity. }
  specialize (H heap_combined _ cssSelectorBuilder 5%positive "a + b"
                [false; false; false; false; false; false]
                [(Id, "main"); (Class, "c")] Hsel Hord Hrun).
  rewrite Hreal, Hslots in H. discriminate H.
Qed.

(** C1, amended. In every heap, a chain of appends in slot order started on
    a builder value whose text is empty, as that of [cssSelectorBuilder] is
    when the module is loaded and again after [stringify]: whenever the
    chain returns a value, [stringify] on that value returns the decorated
    texts slot by slot, type text verbatim, id after [#], class after [.],
    attribute between brackets, pseudo-class after [:] and pseudo-element
    after [::], empty slots adding nothing; and the chain does return a
    value when no flag of the value it starts from is set and element, id
    and pseudo-element occur at most once. On [cssSelectorBuilder] as loaded
    the two documented chains render [#main.container.editable] and
    [a[href$=".png"]:focus]. *)
Theorem render_in_slot_order_from_empty :
  (forall (h0 : heap) (this : loc) (u : list bool)
          (ops : list (category * string)),
     selector h0 this "" u ->
     in_order ops ->
     (forall (h : heap) (r : loc),
        build this ops h0 = (h, Return r) ->
        snd (stringify r h) = Return (render_by_slots ops)) /\
     (at_most_once ops ->
      (forall i, array_get i u = false) ->
      exists (h : heap) (r : loc), build this ops h0 = (h, Return r))) /\
  run (let* a := id cssSelectorBuilder "main" in
       let* b := class a "container" in
       let* c := class b "editable" in
       stringify c) = Return "#main.container.editable" /\
  run (let* a := element cssSelectorBuilder "a" in
       let* b := attr a ("href$=" +:+ dquote +:+ ".png" +:+ dquote) in
       let* c := pseudoClass b "focus" in
       stringify c)
  = Return ("a[href$=" +:+ dquote +:+ ".png" +:+ dquote +:+ "]:focus").
Proof.
  split; [|split; vm_compute; reflexivity].
  intros h0 this u ops Hsel Hord. split.
  - intros h r Hrun.
    destruct (build_Return ops _ _ _ _ _ _ Hsel Hrun) as (u' & Hsel' & _).
    rewrite string_app_nil_l, (texts_in_slot_order ops Hord) in Hsel'.
    by eapply stringify_selector.
  - intros Honce Hfree.
    eapply build_succeeds; eauto using in_order_strongly.
    intros [c value] _. simpl. split; [|auto].
    apply later_used_false. auto.
Qed.

(** The value built by [id('main')] once it has been rendered: its text is
    empty again and its id flag is still set. *)
Lemma render_in_slot_order_from_empty_witness :
  selector (fst (stringify value_main heap_main)) value_main ""
           [false; true; false; false; false; false] /\
  in_order [(Class, "a"); (Class, "b"); (PseudoElement, "after")] /\
  snd (stringify 5%positive
         (fst (build value_main
                 [(Class, "a"); (Class, "b"); (PseudoElement, "after")]
                 (fst (stringify value_main heap_main)))))
  = Return ".a.b::after".
Proof.
  assert (Hsel : selector (fst (stringify value_main heap_main)) value_main ""
                          [false; true; false; false; false; false]).
  { exists 2%positive. vm_compute. auto. }
  assert (Hord : in_order [(Class, "a"); (Class, "b"); (PseudoElement, "after")]).
  { unfold in_order, slot_le. repeat (constructor; simpl; try lia). }
  split; [exact Hsel|]. split; [exact Hord|].
  apply (proj1 (proj1 render_in_slot_order_from_empty
                  (fst (stringify value_main heap_main)) value_main
                  [false; true; false; false; false; false]
                  [(Class, "a"); (Class, "b"); (PseudoElement, "after")]
                  Hsel Hord)
               (fst (build value_main
                       [(Class, "a"); (Class, "b"); (PseudoElement, "after")]
                       (fst (stringify value_main heap_main))))
               5%positive).
  vm_compute. reflexivity.
Defined.

(** C2, refuted: on the value built by [id('main')] the first [stringify]
    returns [#main] and the second the empty string. *)
Lemma stringify_repeatable_counterexample : ~ stringify_repeatable.
Proof.
  intros H.
  specialize (H heap_main (fst (stringify value_main heap_main))
                value_main "#main" eq_refl).
  vm_compute in H. discriminate.
Qed.

(** C2, amended. [stringify] returns the text of the value and empties it:
    the heap it leaves differs only in that the [string] of the value is
    [''], flags untouched, and a second call straight after returns the
    empty string. *)
Theorem stringify_drains (h : heap) (this : loc) (s : string) (a : loc) :
  objs h !! this = Some (Obj s a) ->
  stringify this h = (Heap (<[this := Obj "" a]> (objs h)) (arrs h), Return s) /\
  snd (stringify this (fst (stringify this h))) = Return "".
Proof.
  intros Ho. unfold stringify, bind, getObj, setObj, ret. rewrite Ho. simpl.
  split; [reflexivity|]. by rewrite lookup_insert_eq.
Qed.

Lemma stringify_drains_witness :
  objs heap_main !! value_main = Some (Obj "#main" 2%positive) /\
  snd (stringify value_main heap_main) = Return "#main" /\
  snd (stringify value_main (fst (stringify value_main heap_main))) = Return "".
Proof.
  assert (H : objs heap_main !! value_main = Some (Obj "#main" 2%positive))
    by (vm_compute; reflexivity).
  destruct (stringify_drains heap_main value_main "#main" 2%positive H)
    as [H1 H2].
  split; [exact H|]. split; [by rewrite H1 | exact H2].
Defined.

(** C3. Whatever the category, if a slot after its own is in use the append
    throws the ordering error and leaves the heap as it was. The test of the
    own slot comes later in each method, so this holds also when the own
    slot of element, id or pseudo-element is in use; the two errors are
    different. *)
Theorem order_check_first (c : category) (h : heap) (this : loc)
    (value s : string) (u : list bool) :
  selector h this s u ->
  (exists i, index c < i /\ array_get i u = true) ->
  append c this value h = (h, Throw OrderViolation) /\
  OrderViolation <> DuplicateCategory.
Proof.
  intros Hsel (i & Hlt & Hi). split; [|discriminate].
  rewrite (append_selector c h this value s u Hsel). unfold append_result.
  destruct (later_used (index c) u) eqn:E; [reflexivity|].
  rewrite (proj1 (later_used_false _ _) E i Hlt) in Hi. discriminate.
Qed.

Lemma selector_div_main :
  selector heap_div_main value_div_main "div#main"
           [true; true; false; false; false; false].
Proof. exists 3%positive. vm_compute. auto. Qed.

Lemma order_check_first_witness :
  selector heap_div_main value_div_main "div#main"
           [true; true; false; false; false; false] /\
  append Type_ value_div_main "span" heap_div_main =
  (heap_div_main, Throw OrderViolation).
Proof.
  split; [exact selector_div_main|].
  refine (proj1 (order_check_first Type_ heap_div_main value_div_main "span"
                   "div#main" [true; true; false; false; false; false]
                   selector_div_main _)).
  exists 1. split; [simpl; lia | reflexivity].
Defined.

(** C4, refuted for element: after [element('div').class('c')] a second
    [element] throws the ordering error. *)
Lemma second_element_counterexample : ~ second_append_is_duplicate Type_.
Proof.
  intros H.
  specialize (H [] [(Class, "c")] "div" "span"
                (fst (build cssSelectorBuilder [(Type_, "div"); (Class, "c")]
                        initial_heap))
                3%positive eq_refl).
  vm_compute in H. discriminate.
Qed.

(** C4, amended. Along the life of a value, from any builder value on:
    a second pseudo-element always throws the duplication error; a second
    element always throws, the duplication error when nothing was appended
    since the first and the ordering error otherwise; and class, attribute
    and pseudo-class can be appended any number of times in a row on a value
    that has no later slot in use. *)
Theorem second_append_fails :
  (forall (h0 h : heap) (this r : loc) s u ops1 ops2 v1 v2,
     selector h0 this s u ->
     build this (ops1 ++ (PseudoElement, v1) :: ops2) h0 = (h, Return r) ->
     snd (append PseudoElement r v2 h) = Throw DuplicateCategory) /\
  (forall (h0 h : heap) (this r : loc) s u ops1 ops2 v1 v2,
     selector h0 this s u ->
     build this (ops1 ++ (Type_, v1) :: ops2) h0 = (h, Return r) ->
     snd (append Type_ r v2 h) =
     Throw (if decide (ops2 = []) then DuplicateCategory else OrderViolation)) /\
  (forall (c : category) (h : heap) (this : loc) s u (values : list string),
     once c = false ->
     selector h this s u ->
     later_used (index c) u = false ->
     exists (h' : heap) (r : loc),
       build this (map (pair c) values) h = (h', Return r)).
Proof.
  split; [|split].
  - intros h0 h this r s u ops1 ops2 v1 v2 Hsel Hrun.
    destruct (build_Return _ _ _ _ _ _ _ Hsel Hrun) as (u' & Hsel' & _ & Hset).
    rewrite (append_selector _ _ _ _ _ _ Hsel'). unfold append_result.
    assert (Hlen : length u' = 6) by (destruct Hsel' as (? & ? & ? & ?); done).
    change (index PseudoElement) with 5. rewrite (later_used_last u' Hlen).
    specialize (Hset (PseudoElement, v1)). simpl in Hset.
    rewrite Hset; [reflexivity|]. apply elem_of_app. right. by left.
  - intros h0 h this r s u ops1 ops2 v1 v2 Hsel Hrun.
    rewrite build_app in Hrun.
    destruct (build this ops1 h0) as [h1 [r1|e]] eqn:Hrun1; [|discriminate].
    destruct (build_Return _ _ _ _ _ _ _ Hsel Hrun1) as (u1 & Hsel1 & _).
    rewrite build_cons in Hrun.
    destruct (append Type_ r1 v1 h1) as [h2 [r2|e]] eqn:Happ; [|discriminate].
    destruct (append_Return _ _ _ _ _ _ _ _ Hsel1 Happ) as (Hlate & _ & -> & ->).
    assert (Hlen : length u1 = 6) by (destruct Hsel1 as (? & ? & ? & ?); done).
    assert (Hsel2 : selector
              (copied h1 ((s +:+ texts ops1) +:+ decorate Type_ v1)
                      (array_set (index Type_) true u1))
              (fresh (dom (objs h1)))
              ((s +:+ texts ops1) +:+ decorate Type_ v1)
              (array_set (index Type_) true u1)).
    { apply selector_copied_new. rewrite array_set_length; simpl; lia. }
    assert (Hzero : array_get 0 (array_set (index Type_) true u1) = true).
    { rewrite array_get_set by (simpl; lia). reflexivity. }
    destruct (build_Return _ _ _ _ _ _ _ Hsel2 Hrun) as (u' & Hsel' & Hkeep & Hset).
    rewrite (append_selector _ _ _ _ _ _ Hsel'). unfold append_result.
    change (index Type_) with 0. rewrite (Hkeep 0 Hzero). simpl.
    destruct ops2 as [|[c v] ops2].
    + injection Hrun as <- <-.
      destruct (selector_inj _ _ _ _ _ _ Hsel' Hsel2) as [_ ->].
      replace (later_used 0 (array_set (index Type_) true u1)) with false;
        [reflexivity|].
      symmetry. apply later_used_false. intros i Hi.
      rewrite array_get_set by (simpl; lia). simpl.
      rewrite decide_False by lia.
      by apply (proj1 (later_used_false _ _) Hlate).
    + rewrite decide_False by done.
      replace (later_used 0 u') with true; [reflexivity|].
      symmetry. apply later_used_true. exists (index c).
      assert (Hc : c <> Type_).
      { intros ->.
        assert (Hfree : array_get 0 (array_set (index Type_) true u1) = false).
        { apply (build_Return_once _ _ _ _ _ _ _ Hsel2 Hrun (Type_, v));
            [by left | reflexivity]. }
        congruence. }
      split; [destruct c; simpl; try lia; done|].
      specialize (Hset (c, v)). simpl in Hset. unfold array_get in Hset.
      destruct (u' !! index c) as [[]|]; try reflexivity;
        by discriminate Hset; left.
  - intros c h this s u values Honce Hsel Hlate.
    eapply build_succeeds; [exact Hsel| | |].
    + induction values as [|v values IH]; simpl; constructor; [exact IH|].
      apply Forall_forall. intros op [v' [-> _]]%list_elem_of_fmap.
      unfold slot_le. simpl. lia.
    + intros c' Hc'. replace (filter _ _) with (@nil (category * string));
        [simpl; lia|].
      symmetry. induction values as [|v values IH]; [reflexivity|].
      simpl. rewrite filter_cons, decide_False; [exact IH|].
      simpl. intros ->. congruence.
    + intros op [v' [-> _]]%list_elem_of_fmap. simpl. split; [exact Hlate|].
      congruence.
Qed.

Lemma second_append_fails_witness :
  selector initial_heap cssSelectorBuilder ""
           [false; false; false; false; false; false] /\
  snd (append PseudoElement 3%positive "before"
         (fst (build cssSelectorBuilder
                 [(Type_, "p"); (PseudoElement, "after")] initial_heap)))
  = Throw DuplicateCategory.
Proof.
  split; [exact selector_initial|].
  apply (proj1 second_append_fails initial_heap _ cssSelectorBuilder
           3%positive "" [false; false; false; false; false; false]
           [(Type_, "p")] [] "after" "before" selector_initial).
  vm_compute. reflexivity.
Defined.

(** C5, refuted: [element('div').id('main').element('span')] does not throw
    the duplication error. *)
Lemma element_after_id_counterexample :
  run (let* a := element cssSelectorBuilder "div" in
       let* b := id a "main" in
       element b "span") <> Throw DuplicateCategory.
Proof. vm_compute. discriminate. Qed.

(** C5, amended. [element('div').id('main').element('span')] throws the
    ordering error: [checkOrder(0)] finds the id slot in use before the
    element slot is tested. *)
Theorem element_after_id_order_error :
  run (let* a := element cssSelectorBuilder "div" in
       let* b := id a "main" in
       element b "span") = Throw OrderViolation.
Proof. vm_compute. reflexivity. Qed.

(** C6. An append method leaves every object and every array that existed
    before the call as it was, whether it returns or throws; in particular
    the receiver keeps its text and flags. When it returns, the value is a
    new object holding the receiver's text followed by the decorated value
    and the receiver's flags with the category's slot set, and appending to
    the receiver afterwards gives the same result as before the call. *)
Theorem append_never_mutates (c : category) (h h' : heap) (this : loc)
    (value s : string) (u : list bool) (res : outcome loc) :
  selector h this s u ->
  append c this value h = (h', res) ->
  (forall l o, objs h !! l = Some o -> objs h' !! l = Some o) /\
  (forall a x, arrs h !! a = Some x -> arrs h' !! a = Some x) /\
  selector h' this s u /\
  (forall c2 v2,
     observe (append c2 this v2 h') = observe (append c2 this v2 h)) /\
  (forall r, res = Return r ->
     objs h !! r = None /\
     selector h' r (s +:+ decorate c value) (array_set (index c) true u)).
Proof.
  intros Hsel Happ.
  assert (Hlen : length u = 6) by (destruct Hsel as (? & ? & ? & ?); done).
  assert (Hshape : h' = h \/ exists s' u', h' = copied h s' u').
  { rewrite (append_selector c h this value s u Hsel) in Happ.
    unfold append_result in Happ.
    destruct (later_used (index c) u); [injection Happ as <- _; by left|].
    destruct (once c && array_get (index c) u);
      injection Happ as <- _; right; eauto. }
  assert (Hsel' : selector h' this s u).
  { destruct Hshape as [->|(s' & u' & ->)];
      [exact Hsel | by apply selector_copied_old]. }
  split; [|split; [|split; [exact Hsel'|split]]].
  - destruct Hshape as [->|(s' & u' & ->)]; [auto|].
    intros l o. apply copied_objs_old.
  - destruct Hshape as [->|(s' & u' & ->)]; [auto|].
    intros a x. apply copied_arrs_old.
  - intros c2 v2.
    rewrite (append_selector c2 h' this v2 s u Hsel'),
            (append_selector c2 h this v2 s u Hsel).
    unfold append_result. destruct (later_used (index c2) u); [reflexivity|].
    destruct (once c2 && array_get (index c2) u); [reflexivity|].
    by rewrite !observe_copied.
  - intros r ->.
    destruct (append_Return c h h' this r value s u Hsel Happ)
      as (_ & _ & -> & ->).
    split; [apply fresh_obj_None|].
    apply selector_copied_new. rewrite array_set_length; [exact Hlen|].
    rewrite Hlen. apply index_lt_6.
Qed.

Lemma append_never_mutates_witness :
  selector heap_main value_main "#main"
           [false; true; false; false; false; false] /\
  selector (fst (class value_main "a" heap_main)) value_main "#main"
           [false; true; false; false; false; false] /\
  observe (class value_main "b" (fst (class value_main "a" heap_main)))
  = Return ("#main.b", [false; true; true; false; false; false]).
Proof.
  assert (Hsel : selector heap_main value_main "#main"
                          [false; true; false; false; false; false]).
  { exists 2%positive. vm_compute. auto. }
  destruct (append_never_mutates Class heap_main
              (fst (class value_main "a" heap_main)) value_main "a" "#main"
              [false; true; false; false; false; false]
              (snd (class value_main "a" heap_main)) Hsel)
    as (_ & _ & Hkept & Hsame & _).
  { simpl. by destruct (class value_main "a" heap_main). }
  split; [exact Hsel|]. split; [exact Hkept|].
  etrans; [exact (Hsame Class "b")|]. vm_compute. reflexivity.
Defined.

(** C7, refuted: with [a = builder.element('a')],
    [builder.combine(a, '+', a).stringify()] is ['a + '], not ['a + a'];
    the first [stringify] inside [combine] has emptied the value by the time
    the second reads it. *)
Lemma combine_joins_renderings_counterexample : ~ combine_joins_renderings.
Proof.
  intros H.
  specialize (H heap_a cssSelectorBuilder value_a value_a "+" "a" "a").
  vm_compute in H. specialize (H (ex_intro _ _ eq_refl) eq_refl eq_refl).
  discriminate.
Qed.

(** C7, amended. For two values that are different objects, and any token,
    [combine] called on any object returns that object, and its [stringify]
    then gives the text of the first, a space, the token verbatim, a space
    and the text of the second. The object [combine] is called on, which is
    what an earlier [combine] returned, may be one of the two values. *)
Theorem combine_distinct (h : heap) (this A B : loc) (t sA sB : string) :
  is_Some (objs h !! this) ->
  snd (stringify A h) = Return sA ->
  snd (stringify B h) = Return sB ->
  A <> B ->
  snd (combine this A t B h) = Return this /\
  snd ((let* joined := combine this A t B in stringify joined) h)
  = Return (sA +:+ " " +:+ t +:+ " " +:+ sB).
Proof.
  intros [[sT aT] HT] HA HB Hne.
  unfold stringify, bind, getObj in HA, HB.
  destruct (objs h !! A) as [[sA' aA]|] eqn:EA; [|discriminate].
  destruct (objs h !! B) as [[sB' aB]|] eqn:EB; [|discriminate].
  simpl in HA, HB. injection HA as ->. injection HB as ->.
  unfold bind at 1.
  rewrite (combine_spec h this A B t sA sB sT aA aB aT EA EB HT).
  rewrite decide_False by exact Hne. split; [reflexivity|].
  unfold stringify, bind, getObj. simpl. by rewrite lookup_insert_eq.
Qed.

Lemma combine_distinct_witness :
  snd ((let* joined := combine cssSelectorBuilder value_a ">" value_b in
        stringify joined) heap_a_b) = Return "a > b".
Proof.
  refine (proj2 (combine_distinct heap_a_b cssSelectorBuilder value_a value_b
                   ">" "a" "b" _ _ _ _)).
  - vm_compute. eauto.
  - vm_compute. reflexivity.
  - vm_compute. reflexivity.
  - discriminate.
Defined.




(** C10. On a value whose id slot is in use and no later slot is, [id]
    throws the duplication error. *)
Theorem id_twice_duplicate (h : heap) (this : loc) (value s : string)
    (u : list bool) :
  selector h this s u ->
  array_get 1 u = true ->
  (forall i, 1 < i -> array_get i u = false) ->
  snd (id this value h) = Throw DuplicateCategory.
Proof.
  intros Hsel Hid Hlater.
  change (id this value h) with (append Id this value h).
  rewrite (append_selector Id h this value s u Hsel). unfold append_result.
  change (index Id) with 1.
  rewrite (proj2 (later_used_false _ _) Hlater). simpl. by rewrite Hid.
Qed.

Lemma id_twice_duplicate_witness :
  snd (id value_main "other" heap_main) = Throw DuplicateCategory.
Proof.
  apply (id_twice_duplicate heap_main value_main "other" "#main"
           [false; true; false; false; false; false]).
  - exists 2%positive. vm_compute. auto.
  - reflexivity.
  - intros i Hi. do 2 (destruct i as [|i]; [lia|]).
    do 4 (destruct i as [|i]; [reflexivity|]). reflexivity.
Defined.

(** ** Further properties of the builder *)

Local Set Warnings "-clear-no-such-hyp".

Lemma array_get_true (i : nat) (u : list bool) :
  array_get i u = true <-> u !! i = Some true.
Proof.
  unfold array_get. destruct (u !! i) as [[]|]; simpl; split; congruence.
Qed.

Lemma later_used_true_get (order : nat) (u : list bool) :
  later_used order u = true <-> exists i, order < i /\ array_get i u = true.
Proof.
  rewrite later_used_true. split; intros (i & Hlt & Hi); exists i;
    (split; [exact Hlt|]); by apply array_get_true.
Qed.

(** X1. On a builder value an append method ends in exactly one of three
    ways, decided by the flags of the receiver: the ordering error when a
    later slot is in use; otherwise the duplication error when the method is
    element, id or pseudo-element and its own slot is in use; otherwise it
    returns. No other exception leaves an append method. *)
Theorem append_outcome (c : category) (h : heap) (this : loc)
    (value s : string) (u : list bool) :
  selector h this s u ->
  (snd (append c this value h) = Throw OrderViolation <->
   exists i, index c < i /\ array_get i u = true) /\
  (snd (append c this value h) = Throw DuplicateCategory <->
   (forall i, index c < i -> array_get i u = false) /\
   once c = true /\ array_get (index c) u = true) /\
  ((exists r, snd (append c this value h) = Return r) <->
   (forall i, index c < i -> array_get i u = false) /\
   (once c = true -> array_get (index c) u = false)) /\
  (forall e, snd (append c this value h) = Throw e ->
     e = OrderViolation \/ e = DuplicateCategory).
Proof.
  intros Hsel. rewrite (append_selector c h this value s u Hsel).
  unfold append_result.
  destruct (later_used (index c) u) eqn:Hlate.
  - pose proof (proj1 (later_used_true_get _ _) Hlate) as Hex.
    assert (Hno : ~ forall i, index c < i -> array_get i u = false).
    { intros Hall. destruct Hex as (i & Hlt & Hi).
      rewrite (Hall i Hlt) in Hi. discriminate. }
    simpl. split_and!; try split; naive_solver.
  - pose proof (proj1 (later_used_false _ _) Hlate) as Hall.
    assert (Hno : ~ exists i, index c < i /\ array_get i u = true).
    { intros (i & Hlt & Hi). rewrite (Hall i Hlt) in Hi. discriminate. }
    destruct (once c) eqn:Honce; simpl;
      [destruct (array_get (index c) u) eqn:Hown|]; simpl;
      split_and!; try split; naive_solver.
Qed.

Lemma append_outcome_witness :
  snd (append Id value_main "x" heap_main) = Throw DuplicateCategory.
Proof.
  assert (Hsel : selector heap_main value_main "#main"
                          [false; true; false; false; false; false]).
  { exists 2%positive. vm_compute. auto. }
  apply (proj1 (proj2 (append_outcome Id heap_main value_main "x" "#main"
                         [false; true; false; false; false; false] Hsel))).
  split; [|split; reflexivity].
  intros i Hi. do 2 (destruct i as [|i]; [simpl in Hi; lia|]).
  do 4 (destruct i as [|i]; [reflexivity|]). reflexivity.
Defined.

(** What a chain that returns says about the flags it started from: the
    calls are in slot order, no call goes to a slot below one in use, and
    element, id and pseudo-element occur at most once. *)
Lemma build_Return_valid (ops : list (category * string)) :
  forall (h h' : heap) (this r : loc) s u,
    selector h this s u ->
    build this ops h = (h', Return r) ->
    StronglySorted slot_le ops /\
    (forall op, op ∈ ops -> later_used (index op.1) u = false) /\
    at_most_once ops.
Proof.
  induction ops as [|[c value] ops IH]; intros h h' this r s u Hsel Hrun.
  - split; [constructor|]. split.
    + intros op Hin. by apply elem_of_nil in Hin.
    + intros c _. simpl. lia.
  - pose proof Hrun as Hwhole. rewrite build_cons in Hrun.
    destruct (append c this value h) as [h1 [next|e]] eqn:Happ; [|discriminate].
    destruct (append_Return c h h1 this next value s u Hsel Happ)
      as (Hlate & Hown & -> & ->).
    assert (Hlen : length u = 6) by (destruct Hsel as (? & ? & ? & ?); done).
    assert (Hi : index c < length u) by (rewrite Hlen; apply index_lt_6).
    assert (Hsel1 : selector
              (copied h (s +:+ decorate c value) (array_set (index c) true u))
              (fresh (dom (objs h))) (s +:+ decorate c value)
              (array_set (index c) true u)).
    { apply selector_copied_new. by rewrite array_set_length. }
    destruct (IH _ _ _ _ _ _ Hsel1 Hrun) as (Hsorted & Hfree & Honce).
    assert (Hle : forall op, op ∈ ops -> index c <= index op.1).
    { intros op Hin. destruct (decide (index c <= index op.1)); [done|].
      pose proof (proj1 (later_used_false _ _) (Hfree op Hin) (index c)) as Hf.
      rewrite array_get_set, decide_True in Hf by done.
      by discriminate Hf; lia. }
    split; [|split].
    + constructor; [exact Hsorted|]. apply Forall_forall. intros op Hin.
      unfold slot_le. simpl. by apply Hle.
    + intros op [->|Hin]%elem_of_cons; [exact Hlate|].
      apply later_used_false. intros i Hlt.
      pose proof (proj1 (later_used_false _ _) (Hfree op Hin) i Hlt) as Hf.
      rewrite array_get_set in Hf by exact Hi.
      by destruct (decide (i = index c)).
    + intros c' Hc'. rewrite filter_cons. simpl.
      destruct (decide (c = c')) as [<-|Hne]; [|by apply Honce].
      replace (filter (fun op => op.1 = c) ops) with (@nil (category * string));
        [simpl; lia|].
      destruct (filter (fun op => op.1 = c) ops) as [|op l] eqn:Hf; [done|].
      assert (Hin : op ∈ filter (fun op => op.1 = c) ops) by (rewrite Hf; by left).
      apply list_elem_of_filter in Hin as [Hop Hin].
      pose proof (build_Return_once _ _ _ _ _ _ _ Hsel1 Hrun op Hin) as Hfree'.
      rewrite Hop, array_get_set, decide_True in Hfree' by done.
      by discriminate Hfree'.
Qed.

(** Only the two errors of the source leave a chain started on a builder
    value. *)
Lemma build_Throw (ops : list (category * string)) :
  forall (h h' : heap) (this : loc) s u e,
    selector h this s u ->
    build this ops h = (h', Throw e) ->
    e = OrderViolation \/ e = DuplicateCategory.
Proof.
  induction ops as [|[c value] ops IH]; intros h h' this s u e Hsel Hrun.
  - discriminate.
  - rewrite build_cons in Hrun.
    destruct (append c this value h) as [h1 [next|e1]] eqn:Happ.
    + destruct (append_Return c h h1 this next value s u Hsel Happ)
        as (_ & _ & -> & ->).
      assert (Hlen : length u = 6) by (destruct Hsel as (? & ? & ? & ?); done).
      eapply IH; [|exact Hrun]. apply selector_copied_new.
      rewrite array_set_length; [done|]. rewrite Hlen. apply index_lt_6.
    + injection Hrun as _ <-.
      rewrite (append_selector c h this value s u Hsel) in Happ.
      unfold append_result in Happ.
      destruct (later_used (index c) u); [injection Happ as _ <-; by left|].
      destruct (once c && array_get (index c) u); [|discriminate].
      injection Happ as _ <-. by right.
Qed.

(** X2. A chain of appends started on [cssSelectorBuilder] as loaded returns
    a value exactly when its calls are in slot order with element, id and
    pseudo-element at most once; when it does not, it throws the ordering
    error or the duplication error and nothing else. *)
Theorem chain_returns_iff (ops : list (category * string)) :
  ((exists (h : heap) (r : loc),
      build cssSelectorBuilder ops initial_heap = (h, Return r)) <->
   in_order ops /\ at_most_once ops) /\
  (forall (h : heap) (e : exn),
     build cssSelectorBuilder ops initial_heap = (h, Throw e) ->
     e = OrderViolation \/ e = DuplicateCategory).
Proof.
  split; [split|].
  - intros (h & r & Hrun).
    destruct (build_Return_valid ops _ _ _ _ _ _ selector_initial Hrun)
      as (Hsorted & _ & Honce).
    split; [by apply StronglySorted_Sorted | exact Honce].
  - intros [Hord Honce].
    eapply build_succeeds; eauto using selector_initial, in_order_strongly.
    intros [c value] _. by destruct c.
  - intros h e Hrun. by eapply build_Throw; [apply selector_initial|].
Qed.

Lemma chain_returns_iff_witness :
  in_order [(Type_, "div"); (Id, "main")] /\
  at_most_once [(Type_, "div"); (Id, "main")].
Proof.
  apply (proj1 (proj1 (chain_returns_iff [(Type_, "div"); (Id, "main")]))).
  exists heap_div_main, value_div_main. vm_compute. reflexivity.
Defined.

(** X3. The flags of a value built by a chain on [cssSelectorBuilder] as
    loaded are six, and slot [i] is flagged exactly when the chain has a
    call of the category with index [i]. *)
Theorem flags_record_categories (ops : list (category * string))
    (h : heap) (r : loc) :
  build cssSelectorBuilder ops initial_heap = (h, Return r) ->
  exists (s : string) (u : list bool),
    selector h r s u /\ length u = 6 /\
    forall i, array_get i u = true <-> exists op, op ∈ ops /\ index op.1 = i.
Proof.
  intros Hrun.
  assert (Hgen : forall ops h0 h r this s0 u0,
             selector h0 this s0 u0 ->
             build this ops h0 = (h, Return r) ->
             exists s u, selector h r s u /\
               forall i, array_get i u = true <->
                 array_get i u0 = true \/ exists op, op ∈ ops /\ index op.1 = i).
  { clear. induction ops as [|[c value] ops IH];
      intros h0 h r this s0 u0 Hsel Hrun.
    - injection Hrun as <- <-. exists s0, u0. split; [exact Hsel|].
      intros i. split; [by left|]. intros [H|(op & Hin & _)]; [exact H|].
      by apply elem_of_nil in Hin.
    - rewrite build_cons in Hrun.
      destruct (append c this value h0) as [h1 [next|e]] eqn:Happ; [|discriminate].
      destruct (append_Return c h0 h1 this next value s0 u0 Hsel Happ)
        as (_ & _ & -> & ->).
      assert (Hlen : length u0 = 6) by (destruct Hsel as (? & ? & ? & ?); done).
      assert (Hi : index c < length u0) by (rewrite Hlen; apply index_lt_6).
      eapply IH in Hrun; [|apply selector_copied_new; by rewrite array_set_length].
      destruct Hrun as (s & u & Hsel' & Hiff). exists s, u.
      split; [exact Hsel'|]. intros i. rewrite Hiff.
      rewrite array_get_set by exact Hi. split.
      + intros [Hset|(op & Hin & Hop)].
        * destruct (decide (i = index c)) as [->|]; [|by left].
          right. exists (c, value). split; [by left|done].
        * right. exists op. split; [by right|done].
      + intros [Hset|(op & [->|Hin]%elem_of_cons & Hop)].
        * left. by destruct (decide (i = index c)).
        * left. simpl in Hop. by rewrite decide_True.
        * right. by exists op. }
  destruct (Hgen ops _ _ _ _ _ _ selector_initial Hrun) as (s & u & Hsel & Hiff).
  exists s, u. split; [exact Hsel|].
  split; [by destruct Hsel as (? & ? & ? & ?)|].
  intros i. rewrite Hiff. split; [|by right].
  intros [Hinit|Hex]; [|exact Hex].
  do 6 (destruct i as [|i]; [discriminate|]). discriminate.
Qed.

Lemma flags_record_categories_witness :
  exists (s : string) (u : list bool),
    selector heap_div_main value_div_main s u /\ length u = 6 /\
    forall i, array_get i u = true <->
      exists op, op ∈ [(Type_, "div"); (Id, "main")] /\ index op.1 = i.
Proof.
  apply (flags_record_categories [(Type_, "div"); (Id, "main")]
           heap_div_main value_div_main).
  vm_compute. reflexivity.
Defined.

(** X4. A chain started on any builder value renders the text of that value
    followed by the decorated texts of the calls, in call order: a partly
    built value is a prefix of everything built from it. *)
Theorem chain_extends_text (ops : list (category * string)) (h h' : heap)
    (this r : loc) (s : string) (u : list bool) :
  selector h this s u ->
  build this ops h = (h', Return r) ->
  snd (stringify r h') = Return (s +:+ texts ops).
Proof.
  intros Hsel Hrun.
  destruct (build_Return ops _ _ _ _ _ _ Hsel Hrun) as (u' & Hsel' & _).
  by eapply stringify_selector.
Qed.

Lemma chain_extends_text_witness :
  snd (stringify 4%positive
         (fst (build value_div_main [(Class, "wide")] heap_div_main)))
  = Return "div#main.wide".
Proof.
  apply (chain_extends_text [(Class, "wide")] heap_div_main _ value_div_main
           4%positive "div#main" [true; true; false; false; false; false]
           selector_div_main).
  vm_compute. reflexivity.
Defined.

(** X5. [stringify] empties the text of a value and keeps its flags: a value
    that has been rendered still refuses what it refused before, with the
    same error, and what it accepts starts again from the empty text. *)
Theorem stringify_keeps_flags (h : heap) (this : loc) (s : string)
    (u : list bool) :
  selector h this s u ->
  selector (fst (stringify this h)) this "" u /\
  forall (c : category) (value : string),
    observe (append c this value (fst (stringify this h))) =
    match observe (append c this value h) with
    | Return (_, flags) => Return (decorate c value, flags)
    | Throw e => Throw e
    end.
Proof.
  intros Hsel.
  assert (Hsel' : selector (fst (stringify this h)) this "" u).
  { destruct Hsel as (a & Ho & Ha & Hlen). exists a.
    unfold stringify, bind, getObj, setObj, ret. rewrite Ho. simpl.
    by rewrite lookup_insert_eq. }
  split; [exact Hsel'|]. intros c value.
  rewrite (append_selector c _ this value "" u Hsel'),
          (append_selector c h this value s u Hsel).
  unfold append_result. destruct (later_used (index c) u); [reflexivity|].
  destruct (once c && array_get (index c) u); [reflexivity|].
  by rewrite !observe_copied.
Qed.

Lemma stringify_keeps_flags_witness :
  selector heap_main value_main "#main"
           [false; true; false; false; false; false] /\
  observe (id value_main "again" (fst (stringify value_main heap_main)))
  = Throw DuplicateCategory /\
  observe (class value_main "c" (fst (stringify value_main heap_main)))
  = Return (".c", [false; true; true; false; false; false]).
Proof.
  assert (Hsel : selector heap_main value_main "#main"
                          [false; true; false; false; false; false]).
  { exists 2%positive. vm_compute. auto. }
  destruct (stringify_keeps_flags heap_main value_main "#main"
              [false; true; false; false; false; false] Hsel) as [_ Hsame].
  split; [exact Hsel|]. split.
  - etrans; [exact (Hsame Id "again")|]. vm_compute. reflexivity.
  - etrans; [exact (Hsame Class "c")|]. vm_compute. reflexivity.
Defined.

(** X6. [combine] given one object as both values renders its text, a
    space, the token and a space, with nothing after: the second
    [stringify] reads the text the first has emptied. *)
Theorem combine_same_value (h : heap) (this A : loc) (t sA : string) :
  is_Some (objs h !! this) ->
  snd (stringify A h) = Return sA ->
  snd ((let* joined := combine this A t A in stringify joined) h)
  = Return (sA +:+ " " +:+ t +:+ " ").
Proof.
  intros [[sT aT] HT] HA. unfold stringify, bind, getObj in HA.
  destruct (objs h !! A) as [[sA' aA]|] eqn:EA; [|discriminate].
  simpl in HA. injection HA as ->. unfold bind at 1.
  rewrite (combine_spec h this A A t sA sA sT aA aA aT EA EA HT).
  rewrite decide_True by done.
  unfold stringify, bind, getObj. simpl. by rewrite lookup_insert_eq.
Qed.

Lemma combine_same_value_witness :
  snd ((let* joined := combine cssSelectorBuilder value_a "+" value_a in
        stringify joined) heap_a) = Return "a + ".
Proof.
  apply (combine_same_value heap_a cssSelectorBuilder value_a "+" "a").
  - vm_compute. eauto.
  - vm_compute. reflexivity.
Defined.

(** X7. What [combine] leaves in the object it is called on. Until that
    object is rendered, an append on it starts from the joined text, under
    the flags it had before the call; once it is rendered its text is empty
    again and its flags are still those. For [builder.combine(...)] the
    object is [cssSelectorBuilder]: every chain started before the result is
    rendered carries the joined text in front. *)
Theorem combine_leaves_text (h : heap) (this A B : loc)
    (t sA sB sT : string) (uT : list bool) :
  selector h this sT uT ->
  snd (stringify A h) = Return sA ->
  snd (stringify B h) = Return sB ->
  A <> B ->
  let joined := sA +:+ " " +:+ t +:+ " " +:+ sB in
  let h1 := fst (combine this A t B h) in
  selector h1 this joined uT /\
  (forall (c : category) (value : string) (h2 : heap) (r : loc),
     append c this value h1 = (h2, Return r) ->
     snd (stringify r h2) = Return (joined +:+ decorate c value)) /\
  selector (fst (stringify this h1)) this "" uT.
Proof.
  intros (aT & HT & HaT & Hlen) HA HB Hne joined h1.
  unfold stringify, bind, getObj in HA, HB.
  destruct (objs h !! A) as [[sA' aA]|] eqn:EA; [|discriminate].
  destruct (objs h !! B) as [[sB' aB]|] eqn:EB; [|discriminate].
  simpl in HA, HB. injection HA as ->. injection HB as ->.
  assert (Hsel1 : selector h1 this joined uT).
  { unfold h1. rewrite (combine_spec h this A B t sA sB sT aA aB aT EA EB HT).
    rewrite decide_False by exact Hne. exists aT. simpl.
    by rewrite lookup_insert_eq. }
  split; [exact Hsel1|]. split.
  - intros c value h2 r Happ.
    destruct (append_Return c h1 h2 this r value joined uT Hsel1 Happ)
      as (_ & _ & -> & ->).
    eapply stringify_selector, selector_copied_new.
    rewrite array_set_length; [exact Hlen|]. rewrite Hlen. apply index_lt_6.
  - destruct Hsel1 as (a & Ho & Ha & Hl). exists a.
    unfold stringify, bind, getObj, setObj, ret. rewrite Ho. simpl.
    by rewrite lookup_insert_eq.
Qed.

Lemma combine_leaves_text_witness :
  snd ((let* _ := combine cssSelectorBuilder value_a "+" value_b in
        let* c := element cssSelectorBuilder "c" in
        stringify c) heap_a_b) = Return "a + bc".
Proof.
  assert (Hsel : selector heap_a_b cssSelectorBuilder ""
                          [false; false; false; false; false; false]).
  { exists 1%positive. vm_compute. auto. }
  destruct (combine_leaves_text heap_a_b cssSelectorBuilder value_a value_b
              "+" "a" "b" "" [false; false; false; false; false; false] Hsel)
    as (_ & Hext & _); [vm_compute; reflexivity..|discriminate|].
  unfold bind.
  destruct (combine cssSelectorBuilder value_a "+" value_b heap_a_b)
    as [h1 [r1|e1]] eqn:Hc; [|vm_compute in Hc; discriminate].
  simpl in Hext.
  destruct (element cssSelectorBuilder "c" h1) as [h2 [r2|e2]] eqn:He.
  - exact (Hext Type_ "c" h2 r2 He).
  - vm_compute in Hc. injection Hc as <- _. vm_compute in He. discriminate.
Defined.

End BuilderFacts.

(** ** Rectangle and the JSON helpers: proofs *)

Module ObjectsFacts.
Import Objects.

Example getJSON_object :
  run (let* o := object_literal [("width", Number 10); ("height", Number 20)] in
       getJSON o)
  = Return (Str (String "{"%char (String dquote "width" +:+ String dquote ":10,"
                 +:+ String dquote "height" +:+ String dquote ":20}"))).
Proof. vm_compute. reflexivity. Qed.

(** The documented use of the constructor: [new Rectangle(10, 20)] has
    [width] 10, [height] 20 and [getArea()] 200, the arrow function being an
    own property of the instance. *)
Example new_Rectangle_getArea :
  run (let* r := new_Rectangle (Number 10) (Number 20) in
       let* width := get r "width" in
       let* height := get r "height" in
       let* area := call_method r "getArea" in
       ret (width, height, area))
  = Return (Number 10, Number 20, Number 200).
Proof. vm_compute. reflexivity. Qed.

(** An instance encodes without its function-valued property, and the text
    decodes again. *)
Example getJSON_instance :
  run (let* r := new_Rectangle (Number 10) (Number 20) in
       let* text := getJSON r in
       let* back := fromJSON (Ref Rectangle_prototype) text in
       let* width := get back "width" in
       ret (text, width))
  = Return (Str (String "{"%char (String dquote "width" +:+ String dquote ":10,"
                 +:+ String dquote "height" +:+ String dquote ":20}")),
            Number 10).
Proof. vm_compute. reflexivity. Qed.

(** C9, refuted: the decoded object does not answer [getArea()] with 200. *)
Lemma decoded_rectangle_counterexample :
  run decoded_rectangle <> Return (Number 10, Number 20, Number 200).
Proof. vm_compute. discriminate. Qed.

(** C9, amended. Encoding [{width: 10, height: 20}] with [getJSON] and
    decoding the text with [fromJSON] under [Rectangle.prototype] gives an
    object with [width] 10 and [height] 20 whose prototype is
    [Rectangle.prototype]. [Rectangle] puts [getArea] on each instance it
    constructs and not on its prototype, so reading [getArea] on the decoded
    object gives [undefined] and calling it is a TypeError. *)
Theorem decoded_rectangle_shape :
  run decoded_shape
    = Return (Number 10, Number 20, Ref Rectangle_prototype, Undefined) /\
  run decoded_rectangle = Throw TypeError.
Proof. split; vm_compute; reflexivity. Qed.

(** ** Further properties of Rectangle and the JSON helpers *)

Lemma fresh_None (h : gmap loc object) : h !! fresh (dom h) = None.
Proof. apply not_elem_of_dom, is_fresh. Qed.

(** The store after [new Rectangle(width, height)]. *)
Lemma new_Rectangle_spec (h : gmap loc object) (width height : value) :
  new_Rectangle width height h =
  (<[fresh (dom h) :=
       Object (Some Rectangle_prototype)
         (Plain [("width", width); ("height", height);
                 ("getArea", Closure (getArea_of (fresh (dom h))))])]> h,
   Return (Ref (fresh (dom h)))).
Proof.
  unfold new_Rectangle, Rectangle, alloc, set, bind, ret. simpl.
  rewrite lookup_insert_eq. simpl. rewrite lookup_insert_eq. simpl.
  rewrite lookup_insert_eq. simpl. by rewrite !insert_insert_eq.
Qed.

(** Reading an own property of a plain object. *)
Lemma get_own (h : gmap loc object) (l : loc) (parent : option loc)
    (props : list (string * value)) (key : string) (v : value) :
  h !! l = Some (Object parent (Plain props)) ->
  lookup_prop key props = Some v ->
  get (Ref l) key h = (h, Return v).
Proof. intros Hl Hk. unfold get. simpl. by rewrite Hl, Hk. Qed.

Lemma call_getArea (h : gmap loc object) (l : loc) (parent : option loc)
    (props : list (string * value)) (w v : Z) :
  h !! l = Some (Object parent (Plain props)) ->
  lookup_prop "width" props = Some (Number w) ->
  lookup_prop "height" props = Some (Number v) ->
  safe (w * v) = true ->
  call (Closure (getArea_of l)) h = (h, Return (Number (w * v))).
Proof.
  intros Hl Hw Hh Hsafe. unfold call, bind.
  rewrite (get_own h l parent props "width" _ Hl Hw).
  rewrite (get_own h l parent props "height" _ Hl Hh).
  unfold multiply. simpl. by rewrite Hsafe.
Qed.

(** X8. In any store, [new Rectangle(w, h)] on integers has [width] [w],
    [height] [h], and its [getArea()] returns [w * h], as long as the
    product is an integer a double holds exactly. *)
Theorem new_Rectangle_area (h0 : gmap loc object) (w h : Z) :
  safe (w * h) = true ->
  snd ((let* r := new_Rectangle (Number w) (Number h) in
        let* width := get r "width" in
        let* height := get r "height" in
        let* area := call_method r "getArea" in
        ret (width, height, area)) h0)
  = Return (Number w, Number h, Number (w * h)).
Proof.
  intros Hsafe. unfold bind at 1. rewrite new_Rectangle_spec.
  set (l := fresh (dom h0)).
  set (h1 := <[l := _]> h0).
  assert (Hl : h1 !! l = Some (Object (Some Rectangle_prototype)
                 (Plain [("width", Number w); ("height", Number h);
                         ("getArea", Closure (getArea_of l))])))
    by apply lookup_insert_eq.
  unfold bind at 1. rewrite (get_own h1 l _ _ "width" _ Hl eq_refl).
  unfold bind at 1. rewrite (get_own h1 l _ _ "height" _ Hl eq_refl).
  unfold bind at 1, call_method, bind at 1.
  rewrite (get_own h1 l _ _ "getArea" _ Hl eq_refl).
  by rewrite (call_getArea h1 l _ _ w h Hl eq_refl eq_refl Hsafe).
Qed.

Lemma new_Rectangle_area_witness :
  snd ((let* r := new_Rectangle (Number 3) (Number (-7)) in
        let* width := get r "width" in
        let* height := get r "height" in
        let* area := call_method r "getArea" in
        ret (width, height, area)) realm)
  = Return (Number 3, Number (-7), Number (-21)).
Proof. apply (new_Rectangle_area realm 3 (-7)). reflexivity. Defined.

(** X9. [getArea] is computed at each call from the fields as they are then:
    after [r.width = w'] on [new Rectangle(w, h)], [r.getArea()] returns
    [w' * h]. *)
Theorem getArea_reads_current_fields (h0 : gmap loc object) (w h w' : Z) :
  safe (w' * h) = true ->
  snd ((let* r := new_Rectangle (Number w) (Number h) in
        set r "width" (Number w');;
        call_method r "getArea") h0)
  = Return (Number (w' * h)).
Proof.
  intros Hsafe. unfold bind at 1. rewrite new_Rectangle_spec.
  set (l := fresh (dom h0)).
  unfold bind at 1, set. rewrite lookup_insert_eq. simpl.
  rewrite insert_insert_eq.
  set (h1 := <[l := _]> h0).
  assert (Hl : h1 !! l = Some (Object (Some Rectangle_prototype)
                 (Plain [("width", Number w'); ("height", Number h);
                         ("getArea", Closure (getArea_of l))])))
    by apply lookup_insert_eq.
  unfold call_method, bind at 1.
  rewrite (get_own h1 l _ _ "getArea" _ Hl eq_refl).
  by rewrite (call_getArea h1 l _ _ w' h Hl eq_refl eq_refl Hsafe).
Qed.

Lemma getArea_reads_current_fields_witness :
  snd ((let* r := new_Rectangle (Number 10) (Number 20) in
        set r "width" (Number 5);;
        call_method r "getArea") realm)
  = Return (Number 100).
Proof. apply (getArea_reads_current_fields realm 10 20 5). reflexivity. Defined.

(** X10. The arrow function stays bound to the instance that made it: put
    on another rectangle as its [getArea], it still returns the area of the
    first. *)
Theorem getArea_bound_to_instance (h0 : gmap loc object) (w1 h1 w2 h2 : Z) :
  safe (w1 * h1) = true ->
  snd ((let* r1 := new_Rectangle (Number w1) (Number h1) in
        let* r2 := new_Rectangle (Number w2) (Number h2) in
        let* f := get r1 "getArea" in
        set r2 "getArea" f;;
        call_method r2 "getArea") h0)
  = Return (Number (w1 * h1)).
Proof.
  intros Hsafe. unfold bind at 1. rewrite new_Rectangle_spec.
  set (l1 := fresh (dom h0)).
  set (o1 := Object (Some Rectangle_prototype)
               (Plain [("width", Number w1); ("height", Number h1);
                       ("getArea", Closure (getArea_of l1))])).
  set (ha := <[l1 := o1]> h0).
  unfold bind at 1. rewrite new_Rectangle_spec.
  set (l2 := fresh (dom ha)).
  assert (Hne : l2 <> l1).
  { intros E. pose proof (fresh_None ha) as F. fold l2 in F. rewrite E in F.
    unfold ha in F. by rewrite lookup_insert_eq in F. }
  set (hb := <[l2 := _]> ha).
  assert (H1 : hb !! l1 = Some o1).
  { unfold hb. rewrite lookup_insert_ne by done. apply lookup_insert_eq. }
  unfold bind at 1. rewrite (get_own hb l1 _ _ "getArea" _ H1 eq_refl).
  unfold bind at 1, set. unfold hb at 1. rewrite lookup_insert_eq. simpl.
  unfold hb. rewrite insert_insert_eq.
  set (hc := <[l2 := _]> ha).
  assert (H2 : hc !! l2 = Some (Object (Some Rectangle_prototype)
                 (Plain [("width", Number w2); ("height", Number h2);
                         ("getArea", Closure (getArea_of l1))])))
    by apply lookup_insert_eq.
  assert (H1' : hc !! l1 = Some o1).
  { unfold hc. rewrite lookup_insert_ne by done. apply lookup_insert_eq. }
  unfold call_method, bind at 1.
  rewrite (get_own hc l2 _ _ "getArea" _ H2 eq_refl).
  by rewrite (call_getArea hc l1 _ _ w1 h1 H1' eq_refl eq_refl Hsafe).
Qed.

Lemma getArea_bound_to_instance_witness :
  snd ((let* r1 := new_Rectangle (Number 2) (Number 3) in
        let* r2 := new_Rectangle (Number 10) (Number 20) in
        let* f := get r1 "getArea" in
        set r2 "getArea" f;;
        call_method r2 "getArea") realm)
  = Return (Number 6).
Proof. apply (getArea_bound_to_instance realm 2 3 10 20). reflexivity. Defined.

(** *** Integers in JSON text *)

Local Abbreviation uchars d := (list_ascii_of_string (NilEmpty.string_of_uint d)).

Local Abbreviation digit_step :=
  (fun (acc : Z) (c : ascii) => (10 * acc + Z.of_nat (nat_of_ascii c - 48))%Z).

(** What [JSON.stringify] writes for an integer. *)
Local Abbreviation printed n := (NilZero.string_of_int (Z.to_int n)).

(** The text after a number: nothing, or a comma or closing brace first. *)
Local Abbreviation ends_number rest :=
  (match rest with
   | [] => True
   | c :: _ => c = ","%char \/ c = "}"%char
   end).

Lemma take_digits_uint (d : Decimal.uint) (rest : list ascii) :
  ends_number rest ->
  take_digits (uchars d ++ rest) = (uchars d, rest).
Proof.
  intros Hc. induction d; simpl; rewrite ?IHd; try reflexivity.
  destruct rest as [|c rest]; [reflexivity|].
  by destruct Hc as [-> | ->].
Qed.

Lemma fold_uint_acc (d : Decimal.uint) :
  forall acc : positive,
    fold_left digit_step (uchars d) (Z.pos acc) = Z.pos (Pos.of_uint_acc d acc).
Proof.
  induction d; intros acc; simpl; [reflexivity|..];
    rewrite <- IHd; f_equal; lia.
Qed.

Lemma digits_value_uint (d : Decimal.uint) :
  digits_value (uchars d) = Z.of_N (Pos.of_uint d).
Proof.
  unfold digits_value. induction d; simpl; [reflexivity|exact IHd|..];
    apply (fold_uint_acc d).
Qed.

(** The decimal digits of a positive number start with a digit other than
    zero. *)
Lemma uchars_head (p : positive) :
  exists (k : ascii) (ds : list ascii),
    uchars (Pos.to_uint p) = k :: ds /\
    is_digit k = true /\ Nat.eqb (nat_of_ascii k) 48 = false.
Proof.
  assert (Hnz : Pos.to_uint p = Decimal.nzhead (Pos.to_uint p)).
  { pose proof (DecimalPos.Unsigned.to_of (Pos.to_uint p)) as H.
    rewrite DecimalPos.Unsigned.of_to in H. simpl in H.
    rewrite H at 1. apply DecimalFacts.unorm_nzhead.
    intros E. apply DecimalFacts.unorm_0 in E. rewrite <- H in E.
    by apply (DecimalPos.Unsigned.to_uint_nonzero p). }
  destruct (Pos.to_uint p) as [|d|d|d|d|d|d|d|d|d|d] eqn:E;
    [by destruct (DecimalPos.Unsigned.to_uint_nonnil p)
    |by destruct (DecimalFacts.nzhead_nonzero (Decimal.D0 d) d)
    |by eexists _, _ ..].
Qed.

Lemma parse_digits_printed (negative : bool) (p : positive)
    (rest : list ascii) :
  safe (Z.pos p) = true ->
  ends_number rest ->
  parse_digits negative (uchars (Pos.to_uint p) ++ rest) =
  Read (JNumber (if negative then Z.neg p else Z.pos p)) rest.
Proof.
  intros Hsafe Hc. unfold parse_digits.
  rewrite take_digits_uint by exact Hc.
  pose proof (digits_value_uint (Pos.to_uint p)) as Hv.
  rewrite DecimalPos.Unsigned.of_to in Hv. simpl in Hv.
  destruct (uchars_head p) as (k & ds & E & _ & Hk).
  rewrite E in Hv |- *. rewrite Hk. simpl.
  destruct rest as [|c rest]; [|destruct Hc as [-> | ->]];
    rewrite Hv, Hsafe; simpl; by destruct negative.
Qed.

Lemma parse_value_digit (budget : nat) (c : ascii) (cs : list ascii) :
  is_digit c = true ->
  parse_value (S budget) (c :: cs) = parse_digits false (c :: cs).
Proof.
  destruct c as [[] [] [] [] [] [] [] []]; try discriminate; reflexivity.
Qed.

Lemma string_of_uint_nonnil (p : positive) :
  NilZero.string_of_uint (Pos.to_uint p)
  = NilEmpty.string_of_uint (Pos.to_uint p).
Proof.
  pose proof (DecimalPos.Unsigned.to_uint_nonnil p).
  by destruct (Pos.to_uint p).
Qed.

(** Reading back a printed integer, at the end of the text or before a
    comma or a closing brace. *)
Lemma parse_value_printed (budget : nat) (n : Z) (rest : list ascii) :
  safe n = true ->
  ends_number rest ->
  parse_value (S budget) (list_ascii_of_string (printed n) ++ rest) =
  Read (JNumber n) rest.
Proof.
  intros Hsafe Hc. destruct n as [|p|p].
  - destruct rest as [|c rest]; [|destruct Hc as [-> | ->]]; reflexivity.
  - change (printed (Z.pos p)) with (NilZero.string_of_uint (Pos.to_uint p)).
    rewrite string_of_uint_nonnil.
    destruct (uchars_head p) as (k & ds & E & Hk & _).
    pose proof (parse_digits_printed false p rest Hsafe Hc) as Hp.
    rewrite E in Hp |- *. simpl app in Hp |- *.
    by rewrite parse_value_digit.
  - change (printed (Z.neg p))
      with (String "-" (NilZero.string_of_uint (Pos.to_uint p))).
    rewrite string_of_uint_nonnil.
    change (list_ascii_of_string (String "-" ?s))
      with ("-"%char :: list_ascii_of_string s).
    change (parse_value (S budget) (("-"%char :: ?l) ++ ?r))
      with (parse_digits true (l ++ r)).
    by apply (parse_digits_printed true p rest).
Qed.

(** *** The text of a rectangle *)

(** [{"width":w,"height":h}] *)
Local Abbreviation rectangle_text w h :=
  ("{" +:+ String dquote "width" +:+ String dquote ":" +:+ printed w +:+ ","
   +:+ String dquote "height" +:+ String dquote ":" +:+ printed h +:+ "}").

Lemma chars_app (s1 s2 : string) :
  list_ascii_of_string (s1 +:+ s2)
  = list_ascii_of_string s1 ++ list_ascii_of_string s2.
Proof.
  induction s1 as [|a s1 IH]; [reflexivity|].
  change (a :: list_ascii_of_string (s1 +:+ s2)
          = a :: (list_ascii_of_string s1 ++ list_ascii_of_string s2)).
  by rewrite IH.
Qed.

Lemma serialize_Number (depth : nat) (h0 : gmap loc object) (n : Z) :
  safe n = true ->
  serialize depth h0 (Number n) = Return (Some (printed n)).
Proof. intros Hn. destruct depth; simpl; by rewrite Hn. Qed.

Lemma serialize_Closure (depth : nat) (h0 : gmap loc object) (f : closure) :
  serialize depth h0 (Closure f) = Return None.
Proof. by destruct depth. Qed.

(** [JSON.stringify] on an object with the three properties [Rectangle]
    writes: the function-valued one is left out. *)
Lemma getJSON_fields (h0 : gmap loc object) (l : loc) (parent : option loc)
    (f : closure) (w h : Z) :
  h0 !! l = Some (Object parent
                    (Plain [("width", Number w); ("height", Number h);
                            ("getArea", Closure f)])) ->
  safe w = true -> safe h = true ->
  getJSON (Ref l) h0 = (h0, Return (Str (rectangle_text w h))).
Proof.
  intros Hl Hw Hh. unfold getJSON, JSON_stringify.
  cbn [serialize]. rewrite Hl. cbn [serialize].
  rewrite (serialize_Number _ _ w Hw), (serialize_Number _ _ h Hh),
          serialize_Closure.
  repeat match goal with
         | |- context [quote ?k] =>
             let q := eval vm_compute in (quote k) in
             change (quote k) with q
         end.
  cbn iota beta. cbn [String.concat].
  rewrite !BuilderFacts.string_app_assoc. reflexivity.
Qed.

Lemma parse_object_open (budget : nat) (cs : list ascii) :
  parse_value (S budget) ("{"%char :: dquote :: cs) =
  match parse_members budget (dquote :: cs) with
  | Read ms rest => Read (JObject ms) rest
  | Fail x => Fail x
  end.
Proof. reflexivity. Qed.

(** One member whose key is [key], written without escapes, up to its
    value. *)
Lemma parse_member_width (budget : nat) (cs : list ascii) :
  parse_members (S budget)
    (dquote :: "w"%char :: "i"%char :: "d"%char :: "t"%char :: "h"%char
       :: dquote :: ":"%char :: cs) =
  match parse_value budget cs with
  | Fail x => Fail x
  | Read j rest2 =>
      match skip_ws rest2 with
      | ","%char :: rest3 =>
          match parse_members budget rest3 with
          | Read ms rest4 => Read (("width", j) :: ms) rest4
          | Fail x => Fail x
          end
      | "}"%char :: rest3 => Read [("width", j)] rest3
      | _ => Fail SyntaxError
      end
  end.
Proof. reflexivity. Qed.

Lemma parse_member_height (budget : nat) (cs : list ascii) :
  parse_members (S budget)
    (dquote :: "h"%char :: "e"%char :: "i"%char :: "g"%char :: "h"%char
       :: "t"%char :: dquote :: ":"%char :: cs) =
  match parse_value budget cs with
  | Fail x => Fail x
  | Read j rest2 =>
      match skip_ws rest2 with
      | ","%char :: rest3 =>
          match parse_members budget rest3 with
          | Read ms rest4 => Read (("height", j) :: ms) rest4
          | Fail x => Fail x
          end
      | "}"%char :: rest3 => Read [("height", j)] rest3
      | _ => Fail SyntaxError
      end
  end.
Proof. reflexivity. Qed.

Lemma skip_ws_stay (c : ascii) (cs : list ascii) :
  is_ws c = false -> skip_ws (c :: cs) = c :: cs.
Proof. intros H. simpl. by rewrite H. Qed.

(** The text read back. *)
Lemma parse_rectangle_text (w h : Z) :
  safe w = true -> safe h = true ->
  parse_text (rectangle_text w h)
  = Return (JObject [("width", JNumber w); ("height", JNumber h)]).
Proof.
  intros Hw Hh. unfold parse_text.
  assert (E : list_ascii_of_string (rectangle_text w h) =
              "{"%char :: dquote :: list_ascii_of_string "width" ++
              dquote :: ":"%char :: list_ascii_of_string (printed w) ++
              ","%char :: dquote :: list_ascii_of_string "height" ++
              dquote :: ":"%char :: list_ascii_of_string (printed h) ++
              ["}"%char]).
  { rewrite !chars_app. reflexivity. }
  rewrite E. cbn [length list_ascii_of_string app].
  rewrite parse_object_open, parse_member_width.
  rewrite (parse_value_printed _ w) by (exact Hw || by left).
  rewrite (skip_ws_stay ","%char) by reflexivity. cbv iota beta.
  rewrite parse_member_height.
  rewrite (parse_value_printed _ h) by (exact Hh || by right).
  reflexivity.
Qed.



(** X12. Encoding [new Rectangle(w, h)] and decoding the text under
    [Rectangle.prototype] gives back the two integer fields, for all [w] and
    [h] a double holds exactly, on an object whose prototype is
    [Rectangle.prototype] and that has no [getArea]. *)
Theorem Rectangle_round_trip (w h : Z) :
  safe w = true -> safe h = true ->
  run (let* r := new_Rectangle (Number w) (Number h) in
       let* text := getJSON r in
       let* back := fromJSON (Ref Rectangle_prototype) text in
       let* width := get back "width" in
       let* height := get back "height" in
       let* parent := Object_getPrototypeOf back in
       let* method := get back "getArea" in
       ret (width, height, parent, method))
  = Return (Number w, Number h, Ref Rectangle_prototype, Undefined).
Proof.
  intros Hw Hh. unfold run. unfold bind at 1. rewrite new_Rectangle_spec.
  unfold bind at 1.
  erewrite getJSON_fields; [|apply lookup_insert_eq|done..].
  unfold bind at 1, fromJSON, bind at 1, JSON_parse.
  rewrite (parse_rectangle_text w h Hw Hh).
  vm_compute. reflexivity.
Qed.

Lemma Rectangle_round_trip_witness :
  run (let* r := new_Rectangle (Number 10) (Number 20) in
       let* text := getJSON r in
       let* back := fromJSON (Ref Rectangle_prototype) text in
       let* width := get back "width" in
       let* height := get back "height" in
       let* parent := Object_getPrototypeOf back in
       let* method := get back "getArea" in
       ret (width, height, parent, method))
  = Return (Number 10, Number 20, Ref Rectangle_prototype, Undefined).
Proof. apply (Rectangle_round_trip 10 20); reflexivity. Defined.

(** X13. An integer survives the two helpers in any store and under any
    prototype object: [fromJSON(proto, getJSON(n))] is [n], the store is
    unchanged, and the prototype is not applied to a primitive. *)
Theorem number_round_trip (h0 : gmap loc object) (p : loc) (n : Z) :
  safe n = true ->
  (let* text := getJSON (Number n) in fromJSON (Ref p) text) h0
  = (h0, Return (Number n)).
Proof.
  intros Hn. unfold bind at 1, getJSON, JSON_stringify.
  rewrite (serialize_Number _ _ n Hn).
  unfold fromJSON, bind, JSON_parse, parse_text.
  rewrite <- (app_nil_r (list_ascii_of_string (printed n))) at 2.
  by rewrite (parse_value_printed _ n []).
Qed.

Lemma number_round_trip_witness :
  (let* text := getJSON (Number (-2048)) in
   fromJSON (Ref Rectangle_prototype) text) realm
  = (realm, Return (Number (-2048))).
Proof. apply (number_round_trip realm Rectangle_prototype (-2048)). reflexivity. Defined.

(** X14. Decoding under a prototype that has the method: with a rectangle
    [r0] passed as the prototype, the decoded object answers [width] from
    the text, has [r0] as its prototype, finds [getArea] on [r0], and, the
    arrow function being bound to [r0], gets the area of [r0]. *)
Theorem fromJSON_inherits (w0 h0 w h : Z) :
  safe w = true -> safe h = true -> safe (w0 * h0) = true ->
  run (let* r0 := new_Rectangle (Number w0) (Number h0) in
       let* r := new_Rectangle (Number w) (Number h) in
       let* text := getJSON r in
       let* back := fromJSON r0 text in
       let* width := get back "width" in
       let* parent := Object_getPrototypeOf back in
       let* area := call_method back "getArea" in
       ret (width, parent, r0, area))
  = Return (Number w, Ref 4%positive, Ref 4%positive, Number (w0 * h0)).
Proof.
  intros Hw Hh Harea. unfold run. unfold bind at 1. rewrite new_Rectangle_spec.
  unfold bind at 1. rewrite new_Rectangle_spec.
  unfold bind at 1.
  erewrite getJSON_fields; [|apply lookup_insert_eq|done..].
  unfold bind at 1, fromJSON, bind at 1, JSON_parse.
  rewrite (parse_rectangle_text w h Hw Hh).
  match goal with
  | |- snd (let (h', o) := ?decoded in _) = _ =>
      let v := eval vm_compute in decoded in
      change decoded with v
  end.
  cbv beta iota. unfold bind at 1.
  match goal with
  | |- context [get ?a "width" ?hh] =>
      let v := eval vm_compute in (get a "width" hh) in
      change (get a "width" hh) with v
  end.
  cbv beta iota. unfold bind at 1.
  match goal with
  | |- context [Object_getPrototypeOf ?a ?hh] =>
      let v := eval vm_compute in (Object_getPrototypeOf a hh) in
      change (Object_getPrototypeOf a hh) with v
  end.
  cbv beta iota. unfold bind at 1, call_method, bind at 1.
  match goal with
  | |- context [get ?a "getArea" ?hh] =>
      let v := eval vm_compute in (get a "getArea" hh) in
      change (get a "getArea" hh) with v
  end.
  cbv beta iota.
  match goal with
  | |- context [call (Closure (getArea_of ?l)) ?hh] =>
      erewrite (call_getArea hh l _ _ w0 h0);
        [|vm_compute; reflexivity|reflexivity|reflexivity|exact Harea]
  end.
  reflexivity.
Qed.

Lemma fromJSON_inherits_witness :
  run (let* r0 := new_Rectangle (Number 2) (Number 3) in
       let* r := new_Rectangle (Number 10) (Number 20) in
       let* text := getJSON r in
       let* back := fromJSON r0 text in
       let* width := get back "width" in
       let* parent := Object_getPrototypeOf back in
       let* area := call_method back "getArea" in
       ret (width, parent, r0, area))
  = Return (Number 10, Ref 4%positive, Ref 4%positive, Number 6).
Proof. apply (fromJSON_inherits 2 3 10 20); reflexivity. Defined.

End ObjectsFacts.
